(** * Assistant streaming client and producer session

    A shallow embedding of the two TypeScript units of the repository:

    - [experimental_useAssistant] (the Svelte hook): the conversation
      state machine with its stores [messages], [input], [threadId],
      [status] and [error], the shared response-consumption routine
      [handleIncomingResponse], and the two public operations
      [submitMessage] and [submitToolOutput];
    - [experimental_AssistantResponse]: the producer session that
      writes stream parts into a [ReadableStream] controller.

    Asynchronous functions are modelled in state-passing style: a call
    takes the stores (and the outside world) and yields an [Outcome],
    either a normal return or a thrown value, each with the state that
    was reached.  The single-threaded scheduler makes this sequential
    reading exact for one call running alone. *)

From Stdlib Require Import String List Bool Arith Lia.
Import ListNotations.
Open Scope string_scope.
Open Scope list_scope.

(** ** JavaScript values that travel through [throw] and the [error] store *)

(** The [error] store has type [unknown | undefined] and a [catch]
    clause binds a value of type [unknown].  The values below are the
    ones the program manipulates in these positions: the two nullish
    values, string primitives, and [Error] objects (with their [name]
    and [message]).  Runtime failures are [Error] objects named
    [TypeError]; their message texts follow V8. *)
Inductive JsVal : Type :=
| JUndefined
| JNull
| JString (s : string)
| JError (name message : string).

Definition TypeError (message : string) : JsVal := JError "TypeError" message.

(** [new Error(message)] *)
Definition new_Error (message : string) : JsVal := JError "Error" message.

(** Opaque JSON payloads are carried as their JSON text. *)
Definition Json : Type := string.

(** ** Data model (shared/types) *)

Inductive Role : Type := user | assistant | data | tool.

Record ToolFunction : Type := mkToolFunction {
  name : string;
  arguments : Json
}.

Record ToolCall : Type := mkToolCall {
  tc_id : string;
  function : ToolFunction
}.

Record ToolCallOutput : Type := mkToolCallOutput {
  tool_call_id : string;
  output : string
}.

Record Message : Type := mkMessage {
  m_id : string;
  m_role : Role;
  m_content : string;
  m_data : option Json;
  m_tool_calls : option (list ToolCall)
}.

(** One block of an assistant message's [content] array.  [text] is
    [Some v] when the block has a [text] object whose [value] is [v],
    and [None] when the block has no [text] property (an image block). *)
Record ContentBlock : Type := mkContentBlock {
  text : option string
}.

Record AssistantMessage : Type := mkAssistantMessage {
  am_id : string;
  am_role : Role;
  am_content : list ContentBlock
}.

Record DataMessage : Type := mkDataMessage {
  dm_id : option string;
  dm_data : Json
}.

Record ToolCallMessage : Type := mkToolCallMessage {
  tcm_tool_calls : list ToolCall
}.

Record ControlData : Type := mkControlData {
  cd_threadId : string;
  cd_messageId : string
}.

(** The decoded stream parts, one constructor per wire type code:
    [assistant_message], [data_message], [tool_calls],
    [assistant_control_data] and [error]. *)
Inductive StreamPart : Type :=
| assistant_message (value : AssistantMessage)
| data_message (value : DataMessage)
| tool_calls (value : ToolCallMessage)
| assistant_control_data (value : ControlData)
| error_part (value : string).

Inductive AssistantStatus : Type := in_progress | awaiting_message.

(** ** The outside world of the hook *)

(** The JSON body of a request, without the static [body] fields. *)
Record Request : Type := mkRequest {
  rq_threadId : option string;          (* [None] is [null] *)
  rq_message : option string;
  rq_content : option (list ToolCallOutput);
  rq_data : option Json;
  rq_role : option Role                 (* ['user'] or ['tool'] *)
}.

(** What [readDataStream(result.body.getReader())] yields: the decoded
    parts in arrival order, and then either the end of the iteration or
    a failure raised by the iteration itself (a line that does not
    decode, a reader error).  The decoder is not part of these units;
    its output is the input of the state machine. *)
Record DecodedStream : Type := mkDecodedStream {
  parts : list StreamPart;
  failure : option JsVal
}.

(** A [Response]; [body = None] is a response whose [body] is [null]. *)
Record Response : Type := mkResponse {
  body : option DecodedStream
}.

(** A settled [fetch] promise: rejected with a reason, or a response. *)
Definition Fetched : Type := (JsVal + Response)%type.

(** ** State *)

(** The five stores of one hook instance, together with the part of
    the world the hook talks to: [network] scripts the answers of the
    successive [fetch] calls (each may depend on the request sent),
    [requests] logs the requests issued so far, and [nanoids] counts
    the calls to [nanoid()]. *)
Record State : Type := mkState {
  messages : list Message;
  input : string;
  threadId : option string;
  status : AssistantStatus;
  error : JsVal;
  network : list (Request -> Fetched);
  requests : list Request;
  nanoids : nat
}.

Definition initial (net : list (Request -> Fetched)) : State :=
  {| messages := []; input := EmptyString; threadId := None;
     status := awaiting_message; error := JUndefined;
     network := net; requests := []; nanoids := 0 |}.

Definition messages_update (f : list Message -> list Message) (st : State) : State :=
  {| messages := f (messages st); input := input st; threadId := threadId st;
     status := status st; error := error st;
     network := network st; requests := requests st; nanoids := nanoids st |}.

Definition input_set (v : string) (st : State) : State :=
  {| messages := messages st; input := v; threadId := threadId st;
     status := status st; error := error st;
     network := network st; requests := requests st; nanoids := nanoids st |}.

Definition threadId_set (v : option string) (st : State) : State :=
  {| messages := messages st; input := input st; threadId := v;
     status := status st; error := error st;
     network := network st; requests := requests st; nanoids := nanoids st |}.

Definition status_set (v : AssistantStatus) (st : State) : State :=
  {| messages := messages st; input := input st; threadId := threadId st;
     status := v; error := error st;
     network := network st; requests := requests st; nanoids := nanoids st |}.

Definition error_set (v : JsVal) (st : State) : State :=
  {| messages := messages st; input := input st; threadId := threadId st;
     status := status st; error := v;
     network := network st; requests := requests st; nanoids := nanoids st |}.

(** The completion of an asynchronous call. *)
Inductive Outcome : Type :=
| Returns (st : State)
| Throws (thrown : JsVal) (st : State).

Definition final (o : Outcome) : State :=
  match o with Returns st => st | Throws _ st => st end.

(** [fetch(api, { ..., body: JSON.stringify(req) })]: the request is
    logged and the next scripted answer is taken.  When the script is
    exhausted the request fails at the network level: a run in which
    the server asks for tools without end, which keeps the call
    pending for ever, is not represented, and a statement that a call
    returns is made under hypotheses that exclude nested round trips
    or fix their responses. *)
Definition network_failure : JsVal := TypeError "fetch failed".

Definition fetch (req : Request) (st : State) : Fetched * State :=
  match network st with
  | [] =>
      (inl network_failure,
       {| messages := messages st; input := input st; threadId := threadId st;
          status := status st; error := error st;
          network := []; requests := requests st ++ [req]; nanoids := nanoids st |})
  | answer :: rest =>
      (answer req,
       {| messages := messages st; input := input st; threadId := threadId st;
          status := status st; error := error st;
          network := rest; requests := requests st ++ [req]; nanoids := nanoids st |})
  end.

(** ** Tool handlers *)

(** A settled handler promise. *)
Inductive Settled : Type :=
| Resolved (out : string)
| RejectedWith (reason : JsVal).

(** [onToolCall]: the application's handler, by its outcome on each
    requested function.  What else a handler does is its own business
    ("side effect is allowed - front-end responsibility"); a handler
    whose promise never settles leaves the call pending and is not
    represented. *)
Definition Handler : Type := ToolFunction -> Settled.

(** The body of the [async tool_call => ...] arrow function. *)
Definition invoke (onToolCall : Handler) (tool_call : ToolCall) : JsVal + ToolCallOutput :=
  match onToolCall (function tool_call) with
  | Resolved out => inr {| tool_call_id := tc_id tool_call; output := out |}
  | RejectedWith reason => inl reason
  end.

(** [Promise.all]: the results in input order when every promise is
    fulfilled, and a rejection as soon as one is rejected.  When
    several are rejected the runtime keeps the reason of the first to
    be rejected in time; handlers carry no timing here, and the reason
    kept is the one of the earliest in input order.  The statements
    about a failing handler only say that the reason kept is the
    reason of some failing invocation. *)
Fixpoint Promise_all {A : Type} (promises : list (JsVal + A)) : JsVal + list A :=
  match promises with
  | [] => inr []
  | inl reason :: _ => inl reason
  | inr a :: rest =>
      match Promise_all rest with
      | inl reason => inl reason
      | inr results => inr (a :: results)
      end
  end.

(** [[...messages, m]] *)
Definition push (m : Message) (ms : list Message) : list Message := ms ++ [m].

(** [lastMessage.id = messageId] *)
Definition with_id (messageId : string) (m : Message) : Message :=
  {| m_id := messageId; m_role := m_role m; m_content := m_content m;
     m_data := m_data m; m_tool_calls := m_tool_calls m |}.

(** [messages[messages.length - 1]]: [undefined] on an empty array. *)
Definition lastMessage (ms : list Message) : option Message :=
  match ms with
  | [] => None
  | _ => nth_error ms (length ms - 1)
  end.

(** [messages.slice(0, messages.length - 1)] *)
Definition slice_init (ms : list Message) : list Message :=
  firstn (length ms - 1) ms.

(** [receiver.set(arg)] where [receiver] is not a store: the property
    read fails on a nullish receiver, and the call fails on any other
    value since it has no callable [set]. *)
Definition call_set_on (receiver : JsVal) : JsVal :=
  match receiver with
  | JUndefined => TypeError "Cannot read properties of undefined (reading 'set')"
  | JNull => TypeError "Cannot read properties of null (reading 'set')"
  | _ => TypeError "error.set is not a function"
  end.

(** The message added to the history for the transparency of tool calls. *)
Definition tool_calls_message (value : ToolCallMessage) : Message :=
  {| m_id := EmptyString; m_role := tool; m_content := EmptyString;
     m_data := None; m_tool_calls := Some (tcm_tool_calls value) |}.

Definition unhandled_prefix : string :=
  "onToolCall is not defined for this assistant. Tool call names invoked ".

Section UseAssistant.

(** The options of the hook that the state machine reads. *)
Variable threadIdParam : option string.
Variable onToolCall : option Handler.

(** Runtime services: [JSON.stringify] on a tool-output payload and
    the successive results of [nanoid()]. *)
Variable JSON_stringify : list ToolCallOutput -> string.
Variable nanoid : nat -> string.

(** [threadIdParam ?? get(threadId) ?? null] *)
Definition request_threadId (st : State) : option string :=
  match threadIdParam with
  | Some t => Some t
  | None => threadId st
  end.

(** The body of the [switch] for one decoded part.  [submit] is
    [submitToolOutput], to which the [tool_calls] case hands over. *)
Definition handlePart (submit : list ToolCallOutput -> State -> Outcome)
    (part : StreamPart) (st : State) : Outcome :=
  match part with
  | assistant_message value =>
      match am_content value with
      | [] =>
          Throws (TypeError "Cannot read properties of undefined (reading 'text')") st
      | block :: _ =>
          match text block with
          | None =>
              Throws (TypeError "Cannot read properties of undefined (reading 'value')") st
          | Some v =>
              Returns (messages_update
                (push {| m_id := am_id value; m_role := am_role value; m_content := v;
                         m_data := None; m_tool_calls := None |}) st)
          end
      end
  | data_message value =>
      Returns (messages_update
        (push {| m_id := match dm_id value with Some i => i | None => EmptyString end;
                 m_role := data; m_content := EmptyString;
                 m_data := Some (dm_data value); m_tool_calls := None |}) st)
  | tool_calls value =>
      let st1 := messages_update (push (tool_calls_message value)) st in
      match onToolCall with
      | None =>
          Returns (error_set
            (JString (String.append unhandled_prefix
               (String.concat ", "
                 (map (fun toolCall => name (function toolCall)) (tcm_tool_calls value)))))
            st1)
      | Some handler =>
          match Promise_all (map (invoke handler) (tcm_tool_calls value)) with
          | inl err => Returns (error_set err st1)
          | inr toolCallOutputs =>
              match submit toolCallOutputs st1 with
              | Returns st2 => Returns st2
              | Throws err st2 => Returns (error_set err st2)
              end
          end
      end
  | assistant_control_data value =>
      let st1 := threadId_set (Some (cd_threadId value)) st in
      match lastMessage (messages st1) with
      | None =>
          Throws (TypeError "Cannot set properties of undefined (setting 'id')") st1
      | Some last =>
          Returns (messages_update
            (fun ms => slice_init ms ++ [with_id (cd_messageId value) last]) st1)
      end
  | error_part value =>
      Returns (error_set (JString value) st)
  end.

(** The [for await] loop: the parts are handled in arrival order; a
    failure of a part's handling, or of the iteration after the last
    decoded part, leaves the loop. *)
Fixpoint consume (submit : list ToolCallOutput -> State -> Outcome)
    (ps : list StreamPart) (ending : option JsVal) (st : State) : Outcome :=
  match ps with
  | [] =>
      match ending with
      | None => Returns st
      | Some e => Throws e st
      end
  | part :: rest =>
      match handlePart submit part st with
      | Returns st' => consume submit rest ending st'
      | Throws e st' => Throws e st'
      end
  end.

(** [handleIncomingResponse].  In the [catch (error)] clause the
    bound name [error] hides the [error] store, so [error.set(error)]
    is a method call on the caught value. *)
Definition handleIncomingResponse (submit : list ToolCallOutput -> State -> Outcome)
    (result : Response) (st : State) : Outcome :=
  match body result with
  | None => Throws (new_Error "The response body is empty.") st
  | Some stream =>
      match consume submit (parts stream) (failure stream) st with
      | Returns st' => Returns st'
      | Throws caught st' => Throws (call_set_on caught) st'
      end
  end.

(** [submitToolOutput(payload, requestOptions)], with the nested
    calls it can reach through [handleIncomingResponse] given by
    [submit]. *)
Definition submitToolOutput_body (submit : list ToolCallOutput -> State -> Outcome)
    (payload : list ToolCallOutput) (requestData : option Json) (st : State) : Outcome :=
  let st1 := status_set in_progress st in
  let st2 :=
    {| messages := push {| m_id := nanoid (nanoids st1); m_role := tool;
                           m_content := JSON_stringify payload;
                           m_data := requestData; m_tool_calls := None |} (messages st1);
       input := input st1; threadId := threadId st1; status := status st1;
       error := error st1; network := network st1; requests := requests st1;
       nanoids := S (nanoids st1) |} in
  match fetch {| rq_threadId := request_threadId st2; rq_message := None;
                 rq_content := Some payload; rq_data := requestData;
                 rq_role := Some tool |} st2 with
  | (inl reason, st3) => Throws reason st3
  | (inr result, st3) =>
      match handleIncomingResponse submit result st3 with
      | Returns st4 => Returns (status_set awaiting_message st4)
      | Throws e st4 => Throws e st4
      end
  end.

(** The recursion of [submitToolOutput] through the [tool_calls]
    case.  Every call takes one answer from the network script, so a
    nesting depth equal to the length of the script is never
    exceeded; the last branch is not reached from [submitToolOutput]
    below (see [submitToolOutput_at_depth]). *)
Fixpoint submitToolOutput_at (depth : nat) (requestData : option Json)
    (payload : list ToolCallOutput) (st : State) {struct depth} : Outcome :=
  submitToolOutput_body
    (match depth with
     | S d => submitToolOutput_at d None
     | O => fun _ st' => Throws (JError "RangeError" "Maximum call stack size exceeded") st'
     end)
    payload requestData st.

Definition submitToolOutput (payload : list ToolCallOutput) (requestData : option Json)
    (st : State) : Outcome :=
  submitToolOutput_at (length (network st)) requestData payload st.

(** [submitMessage(event, requestOptions)]; [event?.preventDefault?.()]
    does not touch the stores. *)
Definition submitMessage (requestData : option Json) (st : State) : Outcome :=
  let inputValue := input st in
  if String.eqb inputValue EmptyString then Returns st
  else
    let st1 := status_set in_progress st in
    let st2 := messages_update
      (push {| m_id := EmptyString; m_role := user; m_content := inputValue;
               m_data := requestData; m_tool_calls := None |}) st1 in
    let st3 := input_set EmptyString st2 in
    match fetch {| rq_threadId := request_threadId st3; rq_message := Some inputValue;
                   rq_content := None; rq_data := requestData;
                   rq_role := Some user |} st3 with
    | (inl reason, st4) => Throws reason st4
    | (inr result, st4) =>
        match handleIncomingResponse (fun payload => submitToolOutput payload None)
                result st4 with
        | Returns st5 => Returns (status_set awaiting_message st5)
        | Throws e st5 => Throws e st5
        end
    end.

End UseAssistant.

(** ** Producer session ([experimental_AssistantResponse]) *)

(** The [ReadableStream] controller seen by [start]: the parts whose
    encoded lines were enqueued, in order, and the number of calls to
    [controller.close()].  A chunk is represented by the part that
    [formatStreamPart] was given; the codec is not part of this unit. *)
Record Controller : Type := mkController {
  chunks : list StreamPart;
  closeCalls : nat
}.

Definition new_controller : Controller := {| chunks := []; closeCalls := 0 |}.

(** [controller.enqueue(textEncoder.encode(formatStreamPart(type, value)))] *)
Definition enqueue (part : StreamPart) (controller : Controller) : Controller :=
  {| chunks := chunks controller ++ [part]; closeCalls := closeCalls controller |}.

(** [controller.close()] *)
Definition close (controller : Controller) : Controller :=
  {| chunks := chunks controller; closeCalls := S (closeCalls controller) |}.

(** The handle given to the application callback has three functions,
    each returning nothing; a run of the callback is the sequence of
    its calls to them followed by the settlement of its promise.  The
    stream is open during the whole run, since [close] is called by
    [start] alone and after it. *)
Inductive Send : Type :=
| sendMessage (message : AssistantMessage)
| sendDataMessage (message : DataMessage)
| sendToolCallMessage (message : ToolCallMessage).

Record Run : Type := mkRun {
  sent : list Send;
  rejection : option JsVal          (* [None]: the promise is fulfilled *)
}.

(** The callback receives [threadId] and [messageId] with the handle. *)
Definition AssistantResponseCallback : Type := string -> string -> Run.

Definition perform (s : Send) (controller : Controller) : Controller :=
  match s with
  | sendMessage message => enqueue (assistant_message message) controller
  | sendDataMessage message => enqueue (data_message message) controller
  | sendToolCallMessage message => enqueue (tool_calls message) controller
  end.

Definition sendError (errorMessage : string) (controller : Controller) : Controller :=
  enqueue (error_part errorMessage) controller.

(** [(error as any).message ?? `${error}`]: the property read fails on
    a nullish value; an [Error] object has a [message]; a string has
    none and is its own text. *)
Definition failure_text (err : JsVal) : JsVal + string :=
  match err with
  | JUndefined => inl (TypeError "Cannot read properties of undefined (reading 'message')")
  | JNull => inl (TypeError "Cannot read properties of null (reading 'message')")
  | JString s => inr s
  | JError _ message => inr message
  end.

(** What [start(controller)] leaves behind: the controller, and the
    rejection of the promise [start] returned, if any. *)
Record Started : Type := mkStarted {
  stream : Controller;
  start_rejection : option JsVal
}.

Definition experimental_AssistantResponse (threadId messageId : string)
    (process : AssistantResponseCallback) : Started :=
  (* send the threadId and messageId as the first message *)
  let c0 := enqueue (assistant_control_data
                       {| cd_threadId := threadId; cd_messageId := messageId |})
                    new_controller in
  (* try *)
  let run := process threadId messageId in
  let c1 := fold_left (fun controller s => perform s controller) (sent run) c0 in
  match rejection run with
  | None =>
      (* finally *)
      {| stream := close c1; start_rejection := None |}
  | Some err =>
      (* catch *)
      match failure_text err with
      | inr errorMessage =>
          let c2 := sendError errorMessage c1 in
          (* finally *)
          {| stream := close c2; start_rejection := None |}
      | inl raised =>
          (* finally *)
          {| stream := close c1; start_rejection := Some raised |}
      end
  end.

Definition part_of (s : Send) : StreamPart :=
  match s with
  | sendMessage message => assistant_message message
  | sendDataMessage message => data_message message
  | sendToolCallMessage message => tool_calls message
  end.

Definition is_control_data (part : StreamPart) : bool :=
  match part with assistant_control_data _ => true | _ => false end.

Definition is_error_part (part : StreamPart) : bool :=
  match part with error_part _ => true | _ => false end.

(** ** The earlier hook (packages/core/svelte/use-assistant.ts) *)

(** The same hook before tool calls were forwarded to the front end:
    [submitMessage] consumes the response inline, its [switch] has no
    [tool_calls] case, the user message carries no [data], and the
    request has no [role]. *)
Module Legacy.
Section UseAssistant.

Variable threadIdParam : option string.

Definition handlePart (part : StreamPart) (st : State) : Outcome :=
  match part with
  | assistant_message value =>
      match am_content value with
      | [] =>
          Throws (TypeError "Cannot read properties of undefined (reading 'text')") st
      | block :: _ =>
          match text block with
          | None =>
              Throws (TypeError "Cannot read properties of undefined (reading 'value')") st
          | Some v =>
              Returns (messages_update
                (push {| m_id := am_id value; m_role := am_role value; m_content := v;
                         m_data := None; m_tool_calls := None |}) st)
          end
      end
  | data_message value =>
      Returns (messages_update
        (push {| m_id := match dm_id value with Some i => i | None => EmptyString end;
                 m_role := data; m_content := EmptyString;
                 m_data := Some (dm_data value); m_tool_calls := None |}) st)
  | assistant_control_data value =>
      let st1 := threadId_set (Some (cd_threadId value)) st in
      match lastMessage (messages st1) with
      | None =>
          Throws (TypeError "Cannot set properties of undefined (setting 'id')") st1
      | Some last =>
          Returns (messages_update
            (fun ms => slice_init ms ++ [with_id (cd_messageId value) last]) st1)
      end
  | error_part value =>
      Returns (error_set (JString value) st)
  | tool_calls _ =>
      (* no case of the switch matches *)
      Returns st
  end.

Fixpoint consume (ps : list StreamPart) (ending : option JsVal) (st : State) : Outcome :=
  match ps with
  | [] =>
      match ending with
      | None => Returns st
      | Some e => Throws e st
      end
  | part :: rest =>
      match handlePart part st with
      | Returns st' => consume rest ending st'
      | Throws e st' => Throws e st'
      end
  end.

Definition submitMessage (requestData : option Json) (st : State) : Outcome :=
  let inputValue := input st in
  if String.eqb inputValue EmptyString then Returns st
  else
    let st1 := status_set in_progress st in
    let st2 := messages_update
      (push {| m_id := EmptyString; m_role := user; m_content := inputValue;
               m_data := None; m_tool_calls := None |}) st1 in
    let st3 := input_set EmptyString st2 in
    match fetch {| rq_threadId := match threadIdParam with
                                  | Some t => Some t
                                  | None => threadId st3
                                  end;
                   rq_message := Some inputValue; rq_content := None;
                   rq_data := requestData; rq_role := None |} st3 with
    | (inl reason, st4) => Throws reason st4
    | (inr result, st4) =>
        match body result with
        | None => Throws (new_Error "The response body is empty.") st4
        | Some stream =>
            match consume (parts stream) (failure stream) st4 with
            | Returns st5 => Returns (status_set awaiting_message st5)
            | Throws caught st5 => Throws (call_set_on caught) st5
            end
        end
    end.

End UseAssistant.
End Legacy.

(** ** Properties of histories and runs *)

(** [m'] is [m] up to its [id]. *)
Definition same_but_id (m m' : Message) : Prop :=
  m_role m' = m_role m /\ m_content m' = m_content m /\
  m_data m' = m_data m /\ m_tool_calls m' = m_tool_calls m.

(** A history [ms] has grown into [ms']: the messages before the last
    one of [ms] are where they were and as they were, the last one of
    [ms] is where it was and as it was up to its [id], and messages may
    have been appended. *)
Inductive grows : list Message -> list Message -> Prop :=
| grows_nil (ms' : list Message) : grows [] ms'
| grows_last (init : list Message) (lst lst' : Message) (more : list Message) :
    same_but_id lst lst' ->
    grows (init ++ [lst]) (init ++ lst' :: more).

(** One state evolves into another: the history has grown, the network
    script has only been consumed, and the request log only extended. *)
Record evolves (st st' : State) : Prop := mkEvolves {
  ev_messages : grows (messages st) (messages st');
  ev_network : length (network st') <= length (network st);
  ev_requests : exists more, requests st' = requests st ++ more
}.

(** [submit] only makes states evolve. *)
Definition evolving (submit : list ToolCallOutput -> State -> Outcome) : Prop :=
  forall payload st, evolves st (final (submit payload st)).

(** Two candidates for the nested [submitToolOutput] that coincide on
    the states whose network script has at most [n] answers left. *)
Definition agree_upto (n : nat) (f g : list ToolCallOutput -> State -> Outcome) : Prop :=
  forall payload st, length (network st) <= n -> f payload st = g payload st.

(** The text [hay] mentions [needle]. *)
Definition mentions (needle hay : string) : Prop :=
  exists before after, hay = String.append before (String.append needle after).

(** An assistant message whose first content block carries a text
    value; the other parts impose nothing on their payload. *)
Definition readable (part : StreamPart) : Prop :=
  match part with
  | assistant_message value =>
      exists v rest, am_content value = {| text := Some v |} :: rest
  | _ => True
  end.

(** The request [submitToolOutput] sends for [payload] from [st]. *)
Definition tool_request (threadIdParam : option string) (payload : list ToolCallOutput)
    (requestData : option Json) (st : State) : Request :=
  {| rq_threadId := request_threadId threadIdParam st; rq_message := None;
     rq_content := Some payload; rq_data := requestData; rq_role := Some tool |}.

(** The request [submitMessage] sends from [st]. *)
Definition user_request (threadIdParam : option string) (requestData : option Json)
    (st : State) : Request :=
  {| rq_threadId := request_threadId threadIdParam st; rq_message := Some (input st);
     rq_content := None; rq_data := requestData; rq_role := Some user |}.

(** The output paired with a tool call is the handler's for it. *)
Definition answers (handler : Handler) (call : ToolCall) (out : ToolCallOutput) : Prop :=
  tool_call_id out = tc_id call /\ handler (function call) = Resolved (output out).

(** ** Sample data for the concrete runs below *)

(** A stand-in for [JSON.stringify] and one for [nanoid]. *)
Definition sample_stringify (outs : list ToolCallOutput) : string :=
  String.concat ";" (map (fun o => String.append (tool_call_id o) (String.append "=" (output o))) outs).

Definition sample_nanoid (n : nat) : string :=
  match n with O => "n0" | S _ => "n1" end.

(** A hook instance whose input field holds [typed], facing [net]. *)
Definition typing (typed : string) (net : list (Request -> Fetched)) : State :=
  input_set typed (initial net).

(** An answer with a streamed body, and an answer without body. *)
Definition streams (ps : list StreamPart) (ending : option JsVal) : Request -> Fetched :=
  fun _ => inr {| body := Some {| parts := ps; failure := ending |} |}.

Definition bodiless : Request -> Fetched :=
  fun _ => inr {| body := None |}.

Definition control (thread message : string) : StreamPart :=
  assistant_control_data {| cd_threadId := thread; cd_messageId := message |}.

Definition says (i t : string) : StreamPart :=
  assistant_message {| am_id := i; am_role := assistant;
                       am_content := [ {| text := Some t |} ] |}.

Definition calls_weather_and_time : ToolCallMessage :=
  {| tcm_tool_calls :=
       [ {| tc_id := "c1"; function := {| name := "weather"; arguments := "{}" |} |};
         {| tc_id := "c2"; function := {| name := "time"; arguments := "{}" |} |} ] |}.

(** A handler that knows the weather and fails on anything else. *)
Definition weather_only : Handler :=
  fun f => if String.eqb (name f) "weather" then Resolved "sunny"
           else RejectedWith (new_Error "unknown tool").

Definition knows_all : Handler := fun f => Resolved (name f).

(** A callback that sends one message and then rejects with [reason]. *)
Definition sends_then_rejects (reason : JsVal) : AssistantResponseCallback :=
  fun _ _ => {| sent := [sendMessage {| am_id := "a1"; am_role := assistant;
                                        am_content := [ {| text := Some "partial" |} ] |}];
                rejection := Some reason |}.

(** ** Further notions for the properties of whole calls *)

(** The state in which [submitToolOutput] sends its request: the
    message is appended and one more [nanoid()] has been drawn. *)
Definition with_tool_message (m : Message) (st : State) : State :=
  {| messages := push m (messages st); input := input st; threadId := threadId st;
     status := status st; error := error st; network := network st;
     requests := requests st; nanoids := S (nanoids st) |}.

(** [submit] only makes steps in the relation [R]. *)
Definition respecting (R : State -> State -> Prop)
    (submit : list ToolCallOutput -> State -> Outcome) : Prop :=
  forall payload st, R st (final (submit payload st)).

(** Kinds of parts. *)
Definition tool_free (part : StreamPart) : Prop :=
  match part with tool_calls _ => False | _ => True end.

Definition control_free (part : StreamPart) : Prop :=
  match part with assistant_control_data _ => False | _ => True end.

Definition error_free (part : StreamPart) : Prop :=
  match part with error_part _ => False | _ => True end.

(** The payload of the last error part of [ps], or [e0] without one. *)
Definition last_error (ps : list StreamPart) (e0 : JsVal) : JsVal :=
  fold_left (fun e part => match part with error_part v => JString v | _ => e end) ps e0.

(** The message an assistant or data part adds to the history. *)
Definition appended (part : StreamPart) : list Message :=
  match part with
  | assistant_message value =>
      match am_content value with
      | {| text := Some v |} :: _ =>
          [ {| m_id := am_id value; m_role := am_role value; m_content := v;
               m_data := None; m_tool_calls := None |} ]
      | _ => []
      end
  | data_message value =>
      [ {| m_id := match dm_id value with Some i => i | None => EmptyString end;
           m_role := data; m_content := EmptyString;
           m_data := Some (dm_data value); m_tool_calls := None |} ]
  | _ => []
  end.

(** The message [submitMessage] appends, under the identifier [i]. *)
Definition user_message (i content : string) (requestData : option Json) : Message :=
  {| m_id := i; m_role := user; m_content := content;
     m_data := requestData; m_tool_calls := None |}.

(** The message [submitToolOutput] appends, under the identifier [i]. *)
Definition tool_output_message (i content : string) (requestData : option Json) : Message :=
  {| m_id := i; m_role := tool; m_content := content;
     m_data := requestData; m_tool_calls := None |}.

(** The request the earlier [submitMessage] sends from [st]. *)
Definition legacy_user_request (threadIdParam : option string) (requestData : option Json)
    (st : State) : Request :=
  {| rq_threadId := request_threadId threadIdParam st; rq_message := Some (input st);
     rq_content := None; rq_data := requestData; rq_role := None |}.

(** Two states with the same five stores. *)
Definition same_stores (a b : State) : Prop :=
  messages a = messages b /\ input a = input b /\ threadId a = threadId b /\
  status a = status b /\ error a = error b.

(** Two outcomes of the same kind, with the same thrown value if any,
    in states with the same stores. *)
Definition same_outcome (a b : Outcome) : Prop :=
  match a, b with
  | Returns sa, Returns sb => same_stores sa sb
  | Throws ea sa, Throws eb sb => ea = eb /\ same_stores sa sb
  | _, _ => False
  end.

(** A response body whose decoded parts are the parts a producer
    session wrote, when the codec gives back what it was given. *)
Definition produced (threadId messageId : string) (process : AssistantResponseCallback)
    (ending : option JsVal) : DecodedStream :=
  {| parts := chunks (stream (experimental_AssistantResponse threadId messageId process));
     failure := ending |}.


(** A handler whose promise is rejected without a reason, and one
    that knows the weather and rejects without a reason otherwise. *)
Definition rejects_undefined : Handler := fun _ => RejectedWith JUndefined.

Definition weather_else_undefined : Handler :=
  fun f => if String.eqb (name f) "weather" then Resolved "sunny"
           else RejectedWith JUndefined.

Definition calls_weather : ToolCallMessage :=
  {| tcm_tool_calls :=
       [ {| tc_id := "c1"; function := {| name := "weather"; arguments := "{}" |} |} ] |}.

Definition calls_time : ToolCallMessage :=
  {| tcm_tool_calls :=
       [ {| tc_id := "c2"; function := {| name := "time"; arguments := "{}" |} |} ] |}.

(** * Lemmas *)

(** ** Histories *)

Lemma same_but_id_refl (m : Message) : same_but_id m m.
Proof. repeat split. Qed.

Lemma same_but_id_trans (a b c : Message) :
  same_but_id a b -> same_but_id b c -> same_but_id a c.
Proof.
  intros (r1 & c1 & d1 & t1) (r2 & c2 & d2 & t2).
  repeat split; congruence.
Qed.

Lemma same_but_id_with_id (i : string) (m : Message) : same_but_id m (with_id i m).
Proof. repeat split. Qed.

Lemma lastMessage_snoc (init : list Message) (x : Message) :
  lastMessage (init ++ [x]) = Some x.
Proof.
  unfold lastMessage.
  destruct (init ++ [x]) eqn:E.
  - destruct init; discriminate.
  - rewrite <- E, length_app. simpl.
    replace (length init + 1 - 1) with (length init) by lia.
    rewrite nth_error_app2 by lia.
    now rewrite Nat.sub_diag.
Qed.

Lemma slice_init_snoc (init : list Message) (x : Message) :
  slice_init (init ++ [x]) = init.
Proof.
  unfold slice_init. rewrite length_app. simpl.
  replace (length init + 1 - 1) with (length init + 0) by lia.
  rewrite firstn_app_2. simpl. apply app_nil_r.
Qed.

Lemma snoc_cases (ms : list Message) :
  ms = [] \/ exists init x, ms = init ++ [x].
Proof.
  destruct ms as [|m ms]; [now left|right].
  destruct (exists_last (l := m :: ms)) as (init & x & E); [discriminate|].
  now exists init, x.
Qed.

Lemma lastMessage_None (ms : list Message) : lastMessage ms = None -> ms = [].
Proof.
  destruct (snoc_cases ms) as [E | (init & x & E)]; subst; [reflexivity|].
  now rewrite lastMessage_snoc.
Qed.

Lemma lastMessage_Some (ms : list Message) (x : Message) :
  lastMessage ms = Some x -> ms = slice_init ms ++ [x].
Proof.
  destruct (snoc_cases ms) as [E | (init & y & E)]; subst; [discriminate|].
  rewrite lastMessage_snoc, slice_init_snoc. congruence.
Qed.

Lemma push_nonempty (m : Message) (ms : list Message) : push m ms <> [].
Proof. unfold push. destruct ms; discriminate. Qed.

Lemma grows_refl (ms : list Message) : grows ms ms.
Proof.
  destruct (snoc_cases ms) as [E | (init & x & E)]; subst.
  - constructor.
  - apply (grows_last init x x []), same_but_id_refl.
Qed.

Lemma snoc_inj (a b : list Message) (x y : Message) :
  a ++ [x] = b ++ [y] -> a = b /\ x = y.
Proof. intros E. apply app_inj_tail in E. exact E. Qed.

Lemma grows_trans (a b c : list Message) : grows a b -> grows b c -> grows a c.
Proof.
  intros [ms' | init lst lst' more S1] H2; [constructor|].
  remember (init ++ lst' :: more) as b' eqn:Eb.
  destruct H2 as [ms'' | init2 l2 l2' more2 S2]; [destruct init; discriminate|].
  destruct (snoc_cases more) as [E | (more_init & z & E)]; subst more.
  - apply snoc_inj in Eb as [-> ->].
    constructor. eapply same_but_id_trans; eassumption.
  - change (init2 ++ [l2] = init ++ (lst' :: more_init) ++ [z]) in Eb.
    rewrite app_assoc in Eb. apply snoc_inj in Eb as [-> ->].
    rewrite <- app_assoc. simpl. now constructor.
Qed.

Lemma grows_push (m : Message) (ms : list Message) : grows ms (push m ms).
Proof.
  unfold push.
  destruct (snoc_cases ms) as [E | (init & x & E)]; subst.
  - constructor.
  - rewrite <- app_assoc. simpl. constructor. apply same_but_id_refl.
Qed.

Lemma grows_backfill (i : string) (ms : list Message) (x : Message) :
  lastMessage ms = Some x -> grows ms (slice_init ms ++ [with_id i x]).
Proof.
  intros E. rewrite (lastMessage_Some _ _ E) at 1.
  constructor. apply same_but_id_with_id.
Qed.

Lemma grows_nonempty (ms ms' : list Message) : grows ms ms' -> ms <> [] -> ms' <> [].
Proof.
  intros [ms'' | init lst lst' more S1] H; [congruence|].
  destruct init; discriminate.
Qed.


(** What [grows] says position by position. *)
Lemma grows_nth (ms ms' : list Message) (i : nat) (m : Message) :
  grows ms ms' -> nth_error ms i = Some m ->
  exists m', nth_error ms' i = Some m' /\ same_but_id m m' /\
             (S i < length ms -> m' = m).
Proof.
  intros [ms'' | init lst lst' more S1] E.
  - destruct i; discriminate.
  - destruct (Nat.lt_ge_cases i (length init)) as [Hlt | Hge].
    + rewrite nth_error_app1 in E by assumption.
      exists m. rewrite nth_error_app1 by assumption.
      split; [assumption|]. split; [apply same_but_id_refl|reflexivity].
    + rewrite nth_error_app2 in E by assumption.
      destruct (i - length init) as [|k] eqn:Ek; simpl in E.
      * injection E as <-. exists lst'.
        rewrite nth_error_app2 by assumption. rewrite Ek. simpl.
        split; [reflexivity|]. split; [assumption|].
        rewrite length_app. simpl. lia.
      * destruct k; discriminate.
Qed.

(** ** Evolution of the state *)

Lemma evolves_refl (st : State) : evolves st st.
Proof.
  constructor; [apply grows_refl | lia | exists []; now rewrite app_nil_r].
Qed.

Lemma evolves_trans (a b c : State) : evolves a b -> evolves b c -> evolves a c.
Proof.
  intros [m1 n1 (r1 & q1)] [m2 n2 (r2 & q2)].
  constructor.
  - eapply grows_trans; eassumption.
  - lia.
  - exists (r1 ++ r2). now rewrite q2, q1, app_assoc.
Qed.

Lemma evolves_messages_update (f : list Message -> list Message) (st : State) :
  grows (messages st) (f (messages st)) -> evolves st (messages_update f st).
Proof.
  intros G. constructor; simpl; [assumption | lia | exists []; now rewrite app_nil_r].
Qed.

Lemma evolves_error_set (v : JsVal) (st : State) : evolves st (error_set v st).
Proof.
  constructor; simpl; [apply grows_refl | lia | exists []; now rewrite app_nil_r].
Qed.

Lemma evolves_threadId_set (v : option string) (st : State) : evolves st (threadId_set v st).
Proof.
  constructor; simpl; [apply grows_refl | lia | exists []; now rewrite app_nil_r].
Qed.

Lemma evolves_status_set (v : AssistantStatus) (st : State) : evolves st (status_set v st).
Proof.
  constructor; simpl; [apply grows_refl | lia | exists []; now rewrite app_nil_r].
Qed.

Lemma evolves_input_set (v : string) (st : State) : evolves st (input_set v st).
Proof.
  constructor; simpl; [apply grows_refl | lia | exists []; now rewrite app_nil_r].
Qed.

Lemma evolves_fetch (req : Request) (st : State) : evolves st (snd (fetch req st)).
Proof.
  unfold fetch. destruct (network st) as [|answer rest] eqn:E; simpl;
    (constructor; simpl; [apply grows_refl | rewrite ?E; simpl; lia | now exists [req]]).
Qed.

Lemma fetch_network (req : Request) (st : State) :
  length (network (snd (fetch req st))) = length (network st) - 1.
Proof.
  unfold fetch. destruct (network st); simpl; lia.
Qed.

Lemma fetch_offline (req : Request) (st : State) :
  network st = [] -> fst (fetch req st) = inl network_failure.
Proof. unfold fetch. now intros ->. Qed.

Ltac evolve_step :=
  match goal with
  | |- evolves ?a ?a => apply evolves_refl
  | |- evolves _ (error_set _ _) => eapply evolves_trans; [|apply evolves_error_set]
  | |- evolves _ (status_set _ _) => eapply evolves_trans; [|apply evolves_status_set]
  | |- evolves _ (input_set _ _) => eapply evolves_trans; [|apply evolves_input_set]
  | |- evolves _ (threadId_set _ _) => eapply evolves_trans; [|apply evolves_threadId_set]
  | |- evolves _ (messages_update (push _) _) =>
      eapply evolves_trans; [|apply evolves_messages_update, grows_push]
  end.

Section Invariants.

Variable threadIdParam : option string.
Variable onToolCall : option Handler.
Variable JSON_stringify : list ToolCallOutput -> string.
Variable nanoid : nat -> string.

Lemma handlePart_evolves submit (part : StreamPart) (st : State) :
  evolving submit -> evolves st (final (handlePart onToolCall submit part st)).
Proof.
  intros Hs. destruct part as [value | value | value | value | value];
    cbn [handlePart].
  - destruct (am_content value) as [|block rest]; [apply evolves_refl|].
    destruct (text block); cbn [final]; repeat evolve_step.
  - cbn [final]. repeat evolve_step.
  - cbv zeta. destruct onToolCall as [handler|]; [|cbn [final]; repeat evolve_step].
    destruct (Promise_all _) as [err | outs]; [cbn [final]; repeat evolve_step|].
    match goal with |- context [submit ?o ?s] =>
      pose proof (Hs o s) as E; destruct (submit o s) as [st2 | err st2] end;
      cbn [final] in *.
    + eapply evolves_trans; [|exact E]. repeat evolve_step.
    + eapply evolves_trans; [|apply evolves_error_set].
      eapply evolves_trans; [|exact E]. repeat evolve_step.
  - cbv zeta.
    destruct (lastMessage (messages (threadId_set (Some (cd_threadId value)) st)))
      as [last|] eqn:E; cbn [final].
    + eapply evolves_trans; [apply evolves_threadId_set|].
      apply evolves_messages_update, grows_backfill, E.
    + apply evolves_threadId_set.
  - cbn [final]. repeat evolve_step.
Qed.

Lemma consume_evolves submit (ps : list StreamPart) (ending : option JsVal) (st : State) :
  evolving submit -> evolves st (final (consume onToolCall submit ps ending st)).
Proof.
  intros Hs. revert st. induction ps as [|part rest IH]; intros st; simpl.
  - destruct ending; apply evolves_refl.
  - pose proof (handlePart_evolves submit part st Hs) as E.
    destruct (handlePart onToolCall submit part st) as [st' | e st']; simpl in *.
    + eapply evolves_trans; [exact E | apply IH].
    + exact E.
Qed.

Lemma handleIncomingResponse_evolves submit (result : Response) (st : State) :
  evolving submit ->
  evolves st (final (handleIncomingResponse onToolCall submit result st)).
Proof.
  intros Hs. unfold handleIncomingResponse.
  destruct (body result) as [stream|]; simpl; [|apply evolves_refl].
  pose proof (consume_evolves submit (parts stream) (failure stream) st Hs) as E.
  now destruct (consume _ _ _ _ _).
Qed.

Lemma submitToolOutput_body_evolves submit payload requestData (st : State) :
  evolving submit ->
  evolves st (final (submitToolOutput_body threadIdParam onToolCall JSON_stringify nanoid
                       submit payload requestData st)).
Proof.
  intros Hs. unfold submitToolOutput_body.
  match goal with |- context [fetch ?r ?s] =>
    pose proof (evolves_fetch r s) as F; destruct (fetch r s) as [[reason | result] st3] end;
    simpl in F.
  - simpl. eapply evolves_trans; [|exact F].
    constructor; simpl; [apply grows_push | lia | exists []; now rewrite app_nil_r].
  - pose proof (handleIncomingResponse_evolves submit result st3 Hs) as E.
    assert (evolves st st3) as E0.
    { eapply evolves_trans; [|exact F].
      constructor; simpl; [apply grows_push | lia | exists []; now rewrite app_nil_r]. }
    destruct (handleIncomingResponse _ _ _ _) as [st4 | e st4]; simpl in *.
    + eapply evolves_trans; [|apply evolves_status_set].
      eapply evolves_trans; eassumption.
    + eapply evolves_trans; eassumption.
Qed.

Lemma submitToolOutput_at_evolving (depth : nat) requestData :
  evolving (submitToolOutput_at threadIdParam onToolCall JSON_stringify nanoid
              depth requestData).
Proof.
  revert requestData. induction depth as [|d IH]; intros requestData payload st; simpl;
    apply submitToolOutput_body_evolves.
  - intros p s. apply evolves_refl.
  - apply IH.
Qed.

Lemma submitToolOutput_evolving :
  evolving (fun payload =>
              submitToolOutput threadIdParam onToolCall JSON_stringify nanoid payload None).
Proof. intros payload st. apply submitToolOutput_at_evolving. Qed.

Lemma submitMessage_evolves requestData (st : State) :
  evolves st (final (submitMessage threadIdParam onToolCall JSON_stringify nanoid
                       requestData st)).
Proof.
  unfold submitMessage. destruct (String.eqb _ _); [apply evolves_refl|].
  match goal with |- context [fetch ?r ?s] =>
    pose proof (evolves_fetch r s) as F; destruct (fetch r s) as [[reason | result] st4] end;
    simpl in F.
  - simpl. eapply evolves_trans; [|exact F]. repeat evolve_step.
  - pose proof (handleIncomingResponse_evolves _ result st4 submitToolOutput_evolving) as E.
    assert (evolves st st4) as E0 by (eapply evolves_trans; [|exact F]; repeat evolve_step).
    destruct (handleIncomingResponse _ _ _ _) as [st5 | e st5]; simpl in *.
    + eapply evolves_trans; [|apply evolves_status_set].
      eapply evolves_trans; eassumption.
    + eapply evolves_trans; eassumption.
Qed.

End Invariants.

(** ** The nesting depth never runs out *)

Section Depth.

Variable threadIdParam : option string.
Variable onToolCall : option Handler.
Variable JSON_stringify : list ToolCallOutput -> string.
Variable nanoid : nat -> string.

Lemma handlePart_agree (n : nat) f g (part : StreamPart) (st : State) :
  agree_upto n f g -> length (network st) <= n ->
  handlePart onToolCall f part st = handlePart onToolCall g part st.
Proof.
  intros A L. destruct part as [value | value | value | value | value];
    cbn [handlePart]; try reflexivity.
  cbv zeta. destruct onToolCall as [handler|]; [|reflexivity].
  destruct (Promise_all _) as [err | outs]; [reflexivity|].
  rewrite A; [reflexivity | exact L].
Qed.

Lemma consume_agree (n : nat) f g (ps : list StreamPart) ending (st : State) :
  agree_upto n f g -> evolving f -> length (network st) <= n ->
  consume onToolCall f ps ending st = consume onToolCall g ps ending st.
Proof.
  intros A Hf. revert st. induction ps as [|part rest IH]; intros st L; simpl.
  - reflexivity.
  - rewrite <- (handlePart_agree n f g part st A L).
    pose proof (handlePart_evolves onToolCall f part st Hf) as E.
    destruct (handlePart onToolCall f part st) as [st' | e st']; [|reflexivity].
    apply IH. apply ev_network in E. simpl in E. lia.
Qed.

Lemma handleIncomingResponse_agree (n : nat) f g (result : Response) (st : State) :
  agree_upto n f g -> evolving f -> length (network st) <= n ->
  handleIncomingResponse onToolCall f result st =
  handleIncomingResponse onToolCall g result st.
Proof.
  intros A Hf L. unfold handleIncomingResponse.
  destruct (body result) as [stream|]; [|reflexivity].
  now rewrite (consume_agree n f g _ _ st A Hf L).
Qed.

Lemma submitToolOutput_body_agree (n : nat) f g payload requestData (st : State) :
  agree_upto n f g -> evolving f -> length (network st) <= S n ->
  submitToolOutput_body threadIdParam onToolCall JSON_stringify nanoid f
    payload requestData st =
  submitToolOutput_body threadIdParam onToolCall JSON_stringify nanoid g
    payload requestData st.
Proof.
  intros A Hf L. unfold submitToolOutput_body.
  match goal with |- context [fetch ?r ?s] =>
    pose proof (fetch_network r s) as N; destruct (fetch r s) as [[reason | result] st3] end;
    [reflexivity|].
  simpl in N.
  rewrite (handleIncomingResponse_agree n f g result st3 A Hf); [reflexivity | lia].
Qed.

Lemma submitToolOutput_body_offline f g payload requestData (st : State) :
  network st = [] ->
  submitToolOutput_body threadIdParam onToolCall JSON_stringify nanoid f
    payload requestData st =
  submitToolOutput_body threadIdParam onToolCall JSON_stringify nanoid g
    payload requestData st.
Proof.
  intros E. unfold submitToolOutput_body, fetch. simpl. now rewrite E.
Qed.

(** With a depth of at least the length of the network script, the
    result of [submitToolOutput_at] does not depend on the depth. *)
Lemma submitToolOutput_at_depth (d1 d2 : nat) requestData payload (st : State) :
  length (network st) <= d1 -> length (network st) <= d2 ->
  submitToolOutput_at threadIdParam onToolCall JSON_stringify nanoid
    d1 requestData payload st =
  submitToolOutput_at threadIdParam onToolCall JSON_stringify nanoid
    d2 requestData payload st.
Proof.
  revert d2 requestData payload st.
  induction d1 as [|d1 IH]; intros d2 requestData payload st L1 L2.
  - destruct d2; simpl; apply submitToolOutput_body_offline;
      destruct (network st); [reflexivity | simpl in L1; lia | reflexivity | simpl in L1; lia].
  - destruct d2 as [|d2].
    + simpl; apply submitToolOutput_body_offline.
      destruct (network st); [reflexivity | simpl in L2; lia].
    + simpl. apply (submitToolOutput_body_agree (Nat.min d1 d2)).
      * intros p s L. apply IH; lia.
      * apply submitToolOutput_at_evolving.
      * lia.
Qed.

(** In particular the public [submitToolOutput] is its own nested
    call: the fallback of [submitToolOutput_at] is never taken. *)
Lemma submitToolOutput_unfold payload requestData (st : State) :
  submitToolOutput threadIdParam onToolCall JSON_stringify nanoid payload requestData st =
  submitToolOutput_body threadIdParam onToolCall JSON_stringify nanoid
    (fun p => submitToolOutput threadIdParam onToolCall JSON_stringify nanoid p None)
    payload requestData st.
Proof.
  unfold submitToolOutput at 1.
  destruct (network st) as [|answer rest] eqn:E.
  - simpl. apply submitToolOutput_body_offline. exact E.
  - simpl. apply (submitToolOutput_body_agree (length rest)).
    + intros p s L. unfold submitToolOutput. apply submitToolOutput_at_depth; lia.
    + apply submitToolOutput_at_evolving.
    + rewrite E. simpl. lia.
Qed.

End Depth.

(** ** Texts *)

Lemma string_append_assoc (a b c : string) :
  String.append (String.append a b) c = String.append a (String.append b c).
Proof. induction a as [|ch a IH]; simpl; [reflexivity | now rewrite IH]. Qed.

Lemma string_append_nil_r (a : string) : String.append a EmptyString = a.
Proof. induction a as [|ch a IH]; simpl; [reflexivity | now rewrite IH]. Qed.

Lemma mentions_here (needle after : string) : mentions needle (String.append needle after).
Proof. now exists EmptyString, after. Qed.

Lemma mentions_later (before needle hay : string) :
  mentions needle hay -> mentions needle (String.append before hay).
Proof.
  intros (b & a & ->). exists (String.append before b), a.
  now rewrite string_append_assoc.
Qed.

Lemma mentions_concat (sep needle : string) (ls : list string) :
  In needle ls -> mentions needle (String.concat sep ls).
Proof.
  induction ls as [|x xs IH]; intros H; [destruct H|].
  destruct xs as [|y ys].
  - destruct H as [-> | []]. simpl.
    exists EmptyString, EmptyString. simpl. now rewrite string_append_nil_r.
  - change (String.concat sep (x :: y :: ys))
      with (String.append x (String.append sep (String.concat sep (y :: ys)))).
    destruct H as [-> | H].
    + apply mentions_here.
    + now apply mentions_later, mentions_later, IH.
Qed.

(** ** Tool handlers *)

Lemma Promise_all_fulfilled (handler : Handler) (calls : list ToolCall)
    (outs : list ToolCallOutput) :
  Promise_all (map (invoke handler) calls) = inr outs ->
  Forall2 (answers handler) calls outs.
Proof.
  revert outs. induction calls as [|call rest IH]; intros outs E; simpl in E.
  - injection E as <-. constructor.
  - unfold invoke at 1 in E.
    destruct (handler (function call)) as [out | reason] eqn:H; [|discriminate].
    destruct (Promise_all (map (invoke handler) rest)) as [reason | outs']; [discriminate|].
    injection E as <-. constructor; [|now apply IH].
    split; [reflexivity | exact H].
Qed.

Lemma Promise_all_rejected (handler : Handler) (calls : list ToolCall) (reason : JsVal) :
  Promise_all (map (invoke handler) calls) = inl reason ->
  exists call, In call calls /\ handler (function call) = RejectedWith reason.
Proof.
  induction calls as [|call rest IH]; intros E; simpl in E; [discriminate|].
  unfold invoke at 1 in E.
  destruct (handler (function call)) as [out | reason'] eqn:H.
  - destruct (Promise_all (map (invoke handler) rest)) as [reason'' | outs']; [|discriminate].
    injection E as ->. destruct (IH eq_refl) as (c & I & R).
    exists c. split; [now right | exact R].
  - injection E as ->. exists call. split; [now left | exact H].
Qed.


(** ** The earlier hook handles the parts it knows in the same way *)

Lemma Legacy_handlePart_agrees onToolCall submit (part : StreamPart) (st : State) :
  (forall value, part <> tool_calls value) ->
  Legacy.handlePart part st = handlePart onToolCall submit part st.
Proof.
  intros N. destruct part; try reflexivity. now elim (N value).
Qed.

Lemma Legacy_consume_agrees onToolCall submit (ps : list StreamPart) ending (st : State) :
  Forall (fun part => forall value, part <> tool_calls value) ps ->
  Legacy.consume ps ending st = consume onToolCall submit ps ending st.
Proof.
  intros F. revert st. induction F as [|part rest N F IH]; intros st; simpl.
  - reflexivity.
  - rewrite (Legacy_handlePart_agrees onToolCall submit part st N).
    destruct (handlePart onToolCall submit part st); [apply IH | reflexivity].
Qed.

(** ** Requests *)

Lemma fetch_requests (req : Request) (st : State) :
  requests (snd (fetch req st)) = requests st ++ [req].
Proof. unfold fetch. now destruct (network st). Qed.

(** A call to [submitToolOutput] issues its request first, whatever
    happens afterwards. *)
Lemma submitToolOutput_body_requests threadIdParam onToolCall JSON_stringify nanoid
    submit payload requestData (st : State) :
  evolving submit ->
  exists more,
    requests (final (submitToolOutput_body threadIdParam onToolCall JSON_stringify nanoid
                       submit payload requestData st))
    = requests st ++ tool_request threadIdParam payload requestData st :: more.
Proof.
  intros Hs. unfold submitToolOutput_body.
  match goal with |- context [fetch ?r ?s] =>
    pose proof (fetch_requests r s) as F; destruct (fetch r s) as [[reason | result] st3] end;
    simpl in F.
  - exists []. exact F.
  - pose proof (handleIncomingResponse_evolves onToolCall submit result st3 Hs) as E.
    apply ev_requests in E. destruct E as (more & E). exists more.
    destruct (handleIncomingResponse _ _ _ _) as [st4 | e st4]; simpl in *;
      rewrite E, F, <- app_assoc; reflexivity.
Qed.

Lemma submitToolOutput_requests threadIdParam onToolCall JSON_stringify nanoid
    payload requestData (st : State) :
  exists more,
    requests (final (submitToolOutput threadIdParam onToolCall JSON_stringify nanoid
                       payload requestData st))
    = requests st ++ tool_request threadIdParam payload requestData st :: more.
Proof.
  rewrite submitToolOutput_unfold.
  apply submitToolOutput_body_requests, submitToolOutput_evolving.
Qed.

(** ** Running the loop *)

(** Processing a sequence in two stretches is processing it at once. *)
Lemma consume_app onToolCall submit (ps1 ps2 : list StreamPart) ending (st mid : State) :
  consume onToolCall submit ps1 None st = Returns mid ->
  consume onToolCall submit (ps1 ++ ps2) ending st
  = consume onToolCall submit ps2 ending mid.
Proof.
  revert st. induction ps1 as [|part rest IH]; intros st E; simpl in *.
  - now injection E as ->.
  - destruct (handlePart onToolCall submit part st) as [st1 | e st1]; [|discriminate].
    now apply IH.
Qed.

(** A stream whose iteration ends by a failure always leaves the loop
    by a throw: at that failure, or earlier at a part that cannot be
    handled. *)
Lemma consume_failing_stream onToolCall submit (ps : list StreamPart) (e : JsVal)
    (st : State) :
  exists caught st', consume onToolCall submit ps (Some e) st = Throws caught st'.
Proof.
  revert st. induction ps as [|part rest IH]; intros st; simpl.
  - now exists e, st.
  - destruct (handlePart onToolCall submit part st) as [st1 | caught st1].
    + apply IH.
    + now exists caught, st1.
Qed.

Lemma call_set_on_TypeError (receiver : JsVal) :
  exists message, call_set_on receiver = TypeError message.
Proof. destruct receiver; simpl; eexists; reflexivity. Qed.

Lemma handlePart_returns onToolCall submit (part : StreamPart) (st : State) :
  readable part -> messages st <> [] ->
  exists st', handlePart onToolCall submit part st = Returns st'.
Proof.
  intros R N. destruct part as [value | value | value | value | value];
    cbn [handlePart].
  - destruct R as (v & rest & ->). simpl. eexists; reflexivity.
  - eexists; reflexivity.
  - cbv zeta. destruct onToolCall as [handler|]; [|eexists; reflexivity].
    destruct (Promise_all _) as [err | outs]; [eexists; reflexivity|].
    destruct (submit outs _); eexists; reflexivity.
  - cbv zeta. destruct (lastMessage _) as [last|] eqn:E; [eexists; reflexivity|].
    apply lastMessage_None in E. simpl in E. contradiction.
  - eexists; reflexivity.
Qed.

(** With a body whose iteration does not fail, the loop runs to its
    end whatever the parts record in the [error] store. *)
Lemma consume_returns onToolCall submit (ps : list StreamPart) (st : State) :
  evolving submit -> Forall readable ps -> messages st <> [] ->
  exists st', consume onToolCall submit ps None st = Returns st'.
Proof.
  intros Hs F. revert st. induction F as [|part rest R F IH]; intros st N; simpl.
  - now exists st.
  - destruct (handlePart_returns onToolCall submit part st R N) as (st1 & E).
    pose proof (handlePart_evolves onToolCall submit part st Hs) as V.
    rewrite E in *. simpl in V. apply IH.
    eapply grows_nonempty; [apply (ev_messages _ _ V) | exact N].
Qed.

Lemma handleIncomingResponse_returns onToolCall submit (stream : DecodedStream)
    (st : State) :
  evolving submit -> failure stream = None -> Forall readable (parts stream) ->
  messages st <> [] ->
  exists st', handleIncomingResponse onToolCall submit {| body := Some stream |} st
              = Returns st'.
Proof.
  intros Hs E F N. unfold handleIncomingResponse. cbn [body]. rewrite E.
  destruct (consume_returns onToolCall submit (parts stream) st Hs F N) as (st' & ->).
  now exists st'.
Qed.

(** The end of a round trip, as both operations write it: the
    response is consumed and, if that returns, [status] is reset. *)
Lemma round_trip_with_body onToolCall submit (stream : DecodedStream) (st : State) :
  evolving submit -> failure stream = None -> Forall readable (parts stream) ->
  messages st <> [] ->
  exists st',
    match handleIncomingResponse onToolCall submit {| body := Some stream |} st with
    | Returns st4 => Returns (status_set awaiting_message st4)
    | Throws e st4 => Throws e st4
    end = Returns st' /\ status st' = awaiting_message.
Proof.
  intros Hs E F N.
  destruct (handleIncomingResponse_returns onToolCall submit stream st Hs E F N)
    as (st4 & ->).
  now exists (status_set awaiting_message st4).
Qed.

(** ** The earlier hook, continued *)

Lemma returning_evolving : evolving (fun _ st => Returns st).
Proof. intros payload st. apply evolves_refl. Qed.

Lemma Legacy_handlePart_evolves (part : StreamPart) (st : State) :
  evolves st (final (Legacy.handlePart part st)).
Proof.
  destruct part as [value | value | value | value | value];
    try (rewrite (Legacy_handlePart_agrees None (fun _ s => Returns s)) by discriminate;
         apply handlePart_evolves, returning_evolving).
  apply evolves_refl.
Qed.

Lemma Legacy_consume_evolves (ps : list StreamPart) ending (st : State) :
  evolves st (final (Legacy.consume ps ending st)).
Proof.
  revert st. induction ps as [|part rest IH]; intros st; simpl.
  - destruct ending; apply evolves_refl.
  - pose proof (Legacy_handlePart_evolves part st) as E.
    destruct (Legacy.handlePart part st) as [st' | e st']; simpl in *.
    + eapply evolves_trans; [exact E | apply IH].
    + exact E.
Qed.

Lemma Legacy_consume_returns (ps : list StreamPart) (st : State) :
  Forall readable ps -> messages st <> [] ->
  exists st', Legacy.consume ps None st = Returns st'.
Proof.
  intros F. revert st. induction F as [|part rest R F IH]; intros st N; simpl.
  - now exists st.
  - pose proof (Legacy_handlePart_evolves part st) as V.
    assert (exists st1, Legacy.handlePart part st = Returns st1) as (st1 & E).
    { destruct part as [value | value | value | value | value];
        try (rewrite (Legacy_handlePart_agrees None (fun _ s => Returns s)) by discriminate;
             now apply handlePart_returns).
      now exists st. }
    rewrite E in *. simpl in V. apply IH.
    eapply grows_nonempty; [apply (ev_messages _ _ V) | exact N].
Qed.

(** The earlier hook has no case for a tool-calls part. *)
Example Legacy_has_no_tool_calls_case (value : ToolCallMessage) (st : State) :
  Legacy.handlePart (tool_calls value) st = Returns st.
Proof. reflexivity. Qed.

(** The earlier [submitMessage] and the status: as in the current
    hook, the call returns idle when the body can be iterated to its
    end, and throws with [status] left at [in_progress] when there is
    no body. *)
Lemma Legacy_status_after_round_trip (threadIdParam : option string)
    (requestData : option Json) (st : State)
    (answer : Request -> Fetched) (rest : list (Request -> Fetched)) :
  network st = answer :: rest -> input st <> EmptyString ->
  (forall stream,
      (forall req, answer req = inr {| body := Some stream |}) ->
      failure stream = None -> Forall readable (parts stream) ->
      exists st',
        Legacy.submitMessage threadIdParam requestData st = Returns st' /\
        status st' = awaiting_message)
  /\
  ((forall req, answer req = inr {| body := None |}) ->
      exists st',
        Legacy.submitMessage threadIdParam requestData st
          = Throws (new_Error "The response body is empty.") st' /\
        status st' = in_progress).
Proof.
  intros N I. apply String.eqb_neq in I.
  unfold Legacy.submitMessage. rewrite I. cbv zeta. unfold fetch.
  cbn [network input_set messages_update status_set]. rewrite N. split.
  - intros stream A E F. rewrite A. cbn [body]. rewrite E.
    match goal with |- context [Legacy.consume ?ps None ?s] =>
      destruct (Legacy_consume_returns ps s F) as (st5 & ->); [apply push_nonempty|] end.
    eexists. split; reflexivity.
  - intros A. rewrite A. cbn [body]. eexists. split; reflexivity.
Qed.

(** ** The producer session *)

Lemma perform_all_chunks (sends : list Send) (controller : Controller) :
  chunks (fold_left (fun c s => perform s c) sends controller)
  = chunks controller ++ map part_of sends.
Proof.
  revert controller. induction sends as [|s rest IH]; intros controller; simpl.
  - now rewrite app_nil_r.
  - rewrite IH. destruct s; simpl; now rewrite <- app_assoc.
Qed.

Lemma perform_all_closeCalls (sends : list Send) (controller : Controller) :
  closeCalls (fold_left (fun c s => perform s c) sends controller) = closeCalls controller.
Proof.
  revert controller. induction sends as [|s rest IH]; intros controller; simpl.
  - reflexivity.
  - rewrite IH. now destruct s.
Qed.

Lemma callback_sends_no_control_data (sends : list Send) :
  filter is_control_data (map part_of sends) = [].
Proof.
  induction sends as [|s rest IH]; simpl; [reflexivity|]. now destruct s.
Qed.

Lemma callback_sends_no_error_part (sends : list Send) :
  filter is_error_part (map part_of sends) = [].
Proof.
  induction sends as [|s rest IH]; simpl; [reflexivity|]. now destruct s.
Qed.

(** What a session writes, in all three ways it can end. *)
Lemma session_chunks (threadId messageId : string) (process : AssistantResponseCallback) :
  chunks (stream (experimental_AssistantResponse threadId messageId process))
  = assistant_control_data {| cd_threadId := threadId; cd_messageId := messageId |}
    :: map part_of (sent (process threadId messageId))
    ++ match rejection (process threadId messageId) with
       | None => []
       | Some err =>
           match failure_text err with
           | inr errorMessage => [error_part errorMessage]
           | inl _ => []
           end
       end.
Proof.
  unfold experimental_AssistantResponse.
  destruct (rejection (process threadId messageId)) as [err|]; simpl.
  - destruct (failure_text err) as [raised | errorMessage]; simpl;
      rewrite perform_all_chunks; simpl; [now rewrite app_nil_r | reflexivity].
  - rewrite perform_all_chunks. simpl. now rewrite app_nil_r.
Qed.

(** The stream is closed exactly once in every session. *)
Lemma stream_closed_exactly_once (threadId messageId : string)
    (process : AssistantResponseCallback) :
  closeCalls (stream (experimental_AssistantResponse threadId messageId process)) = 1.
Proof.
  unfold experimental_AssistantResponse.
  destruct (rejection (process threadId messageId)) as [err|]; simpl.
  - destruct (failure_text err); simpl; now rewrite perform_all_closeCalls.
  - now rewrite perform_all_closeCalls.
Qed.

(** A callback failure that is an [Error] object or a string ends the
    stream by one error part with its text. *)
Lemma rejection_sends_one_error_part (threadId messageId : string)
    (process : AssistantResponseCallback) (err : JsVal) (errorMessage : string) :
  rejection (process threadId messageId) = Some err ->
  failure_text err = inr errorMessage ->
  chunks (stream (experimental_AssistantResponse threadId messageId process))
  = assistant_control_data {| cd_threadId := threadId; cd_messageId := messageId |}
    :: map part_of (sent (process threadId messageId)) ++ [error_part errorMessage]
  /\ start_rejection (experimental_AssistantResponse threadId messageId process) = None.
Proof.
  intros R T. split.
  - now rewrite session_chunks, R, T.
  - unfold experimental_AssistantResponse. now rewrite R, T.
Qed.

(** ** Messages under a run *)

Lemma nth_error_snoc (ms : list Message) (m : Message) :
  nth_error (ms ++ [m]) (length ms) = Some m.
Proof. rewrite nth_error_app2 by lia. now rewrite Nat.sub_diag. Qed.

Lemma nth_error_push (ms : list Message) (x m : Message) (i : nat) :
  nth_error ms i = Some m -> nth_error (push x ms) i = Some m.
Proof.
  intros E. unfold push. rewrite nth_error_app1; [exact E|].
  apply nth_error_Some. congruence.
Qed.

Lemma evolving_keeps_earlier submit (payload : list ToolCallOutput) (x : Message)
    (st : State) (i : nat) (m : Message) :
  evolving submit -> nth_error (messages st) i = Some m ->
  nth_error (messages (final (submit payload (messages_update (push x) st)))) i = Some m.
Proof.
  intros Hs E.
  pose proof (ev_messages _ _ (Hs payload (messages_update (push x) st))) as G.
  destruct (grows_nth _ _ i m G (nth_error_push _ x _ _ E)) as (m' & N & _ & K).
  rewrite N. f_equal. apply K. cbn [messages messages_update]. unfold push.
  rewrite length_app. simpl.
  assert (i < length (messages st)) by (apply nth_error_Some; congruence). lia.
Qed.

Lemma handlePart_control_free_keeps onToolCall submit (part : StreamPart) (st : State)
    (i : nat) (m : Message) :
  evolving submit -> control_free part ->
  nth_error (messages st) i = Some m ->
  nth_error (messages (final (handlePart onToolCall submit part st))) i = Some m.
Proof.
  intros Hs C E. destruct part as [value | value | value | value | value];
    cbn [handlePart]; try contradiction.
  - destruct (am_content value) as [|block rest]; [exact E|].
    destruct (text block); [now apply nth_error_push | exact E].
  - now apply nth_error_push.
  - cbv zeta. destruct onToolCall as [handler|]; [|now apply nth_error_push].
    destruct (Promise_all _) as [err | outs]; [now apply nth_error_push|].
    pose proof (evolving_keeps_earlier submit outs (tool_calls_message value) st i m Hs E)
      as K.
    now destruct (submit outs _).
  - exact E.
Qed.

Lemma consume_control_free_keeps onToolCall submit (ps : list StreamPart) ending
    (st : State) (i : nat) (m : Message) :
  evolving submit -> Forall control_free ps ->
  nth_error (messages st) i = Some m ->
  nth_error (messages (final (consume onToolCall submit ps ending st))) i = Some m.
Proof.
  intros Hs C. revert st. induction C as [|part rest Cp C IH]; intros st E; simpl.
  - now destruct ending.
  - pose proof (handlePart_control_free_keeps onToolCall submit part st i m Hs Cp E) as K.
    destruct (handlePart onToolCall submit part st) as [st1 | e st1]; simpl in K.
    + now apply IH.
    + exact K.
Qed.

(** What a control-data part does to a non-empty history. *)
Lemma control_data_backfills onToolCall submit (value : ControlData) (st : State)
    (init : list Message) (lst : Message) :
  messages st = init ++ [lst] ->
  exists st1,
    handlePart onToolCall submit (assistant_control_data value) st = Returns st1 /\
    messages st1 = init ++ [with_id (cd_messageId value) lst] /\
    threadId st1 = Some (cd_threadId value) /\
    input st1 = input st /\ status st1 = status st /\ error st1 = error st /\
    requests st1 = requests st /\ network st1 = network st /\
    nanoids st1 = nanoids st.
Proof.
  intros E. cbn [handlePart]. cbv zeta.
  cbn [messages threadId_set]. rewrite E, lastMessage_snoc.
  eexists. split; [reflexivity|].
  cbn [messages messages_update threadId_set threadId input status error requests
       network nanoids].
  rewrite E, slice_init_snoc. now repeat split.
Qed.






(** * The claims *)

(** ** Status (C1) *)




(** ** Failures of the iteration (C2) *)

(** C2, where the code departs from it: when the iteration over the
    decoded parts fails, [handleIncomingResponse] does not return.  It
    throws the [TypeError] raised by the [catch] clause itself, in the
    very state in which the loop was left: the clause has written
    nothing to the stores, the [error] store included. *)
Theorem iteration_failure_reaches_caller (onToolCall : option Handler)
    (submit : list ToolCallOutput -> State -> Outcome) (ps : list StreamPart)
    (e : JsVal) (st : State) :
  exists caught st' message,
    consume onToolCall submit ps (Some e) st = Throws caught st' /\
    handleIncomingResponse onToolCall submit
      {| body := Some {| parts := ps; failure := Some e |} |} st
    = Throws (TypeError message) st' /\
    call_set_on caught = TypeError message.
Proof.
  destruct (consume_failing_stream onToolCall submit ps e st) as (caught & st' & E).
  destruct (call_set_on_TypeError caught) as (message & M).
  exists caught, st', message. split; [exact E|]. split; [|exact M].
  unfold handleIncomingResponse. cbn [body parts failure]. now rewrite E, M.
Qed.

(** A response whose first line does not decode: [submitMessage]
    throws to its caller, the [error] store is still [undefined] and
    [status] is still [in_progress].  The earlier hook does the same. *)
Example undecodable_line_reaches_caller :
  submitMessage None None sample_stringify sample_nanoid None
    (typing "hi" [streams [] (Some (new_Error "Failed to parse stream string."))])
  = Throws (TypeError "error.set is not a function")
      {| messages := [ {| m_id := EmptyString; m_role := user; m_content := "hi";
                          m_data := None; m_tool_calls := None |} ];
         input := EmptyString; threadId := None; status := in_progress;
         error := JUndefined; network := [];
         requests := [ {| rq_threadId := None; rq_message := Some "hi"; rq_content := None;
                          rq_data := None; rq_role := Some user |} ];
         nanoids := 0 |}
  /\
  (exists st',
     Legacy.submitMessage None None
       (typing "hi" [streams [] (Some (new_Error "Failed to parse stream string."))])
     = Throws (TypeError "error.set is not a function") st' /\
     error st' = JUndefined /\ status st' = in_progress).
Proof.
  split; [reflexivity|]. eexists. split; [reflexivity|]. split; reflexivity.
Qed.

(** ** Tool calls (C3, C7, C8) *)

(** The three ways in which the handling of a tool-calls part ends.
    Without a handler the list of requested names is written to the
    error store.  With a handler of which an invocation fails, the
    reason of such a failure is written to the error store, whatever
    that reason is.  With a handler that answers every call,
    [submitToolOutput] is called with one output per call, each under
    its call's id, and its request is issued. *)
Lemma tool_calls_outcomes (threadIdParam : option string)
    (onToolCall : option Handler) (JSON_stringify : list ToolCallOutput -> string)
    (nanoid : nat -> string) (value : ToolCallMessage) (st : State) :
  let submit := fun payload =>
    submitToolOutput threadIdParam onToolCall JSON_stringify nanoid payload None in
  let st1 := messages_update (push (tool_calls_message value)) st in
  exists st',
    handlePart onToolCall submit (tool_calls value) st = Returns st' /\
    ( (onToolCall = None /\
       error st' = JString (String.append unhandled_prefix
                     (String.concat ", "
                        (map (fun call => name (function call)) (tcm_tool_calls value)))) /\
       requests st' = requests st)
      \/
      (exists handler failing recorded,
         onToolCall = Some handler /\
         In failing (tcm_tool_calls value) /\
         handler (function failing) = RejectedWith recorded /\
         error st' = recorded /\
         requests st' = requests st)
      \/
      (exists handler outs more,
         onToolCall = Some handler /\
         Forall2 (answers handler) (tcm_tool_calls value) outs /\
         requests st' = requests st ++ tool_request threadIdParam outs None st1 :: more) ).
Proof.
  destruct onToolCall as [handler|]; intros submit st1; cbn [handlePart]; cbv zeta;
    fold st1.
  - destruct (Promise_all (map (invoke handler) (tcm_tool_calls value)))
      as [recorded | outs] eqn:E.
    + eexists. split; [reflexivity|]. right. left.
      destruct (Promise_all_rejected handler _ recorded E) as (failing & If & Rf).
      exists handler, failing, recorded. now repeat split.
    + destruct (submitToolOutput_requests threadIdParam (Some handler) JSON_stringify
                  nanoid outs None st1) as (more & Q).
      fold (submit outs st1) in Q.
      exists (match submit outs st1 with
              | Returns st2 => st2
              | Throws err st2 => error_set err st2
              end).
      split; [now destruct (submit outs st1)|].
      right. right. exists handler, outs, more.
      split; [reflexivity|]. split; [now apply Promise_all_fulfilled|].
      destruct (submit outs st1); exact Q.
  - eexists. split; [reflexivity|]. left. now repeat split.
Qed.

(** C3, where the code departs from it: a handler whose promise is
    rejected without a reason ([undefined]).  The [catch] clause
    writes that reason to the error store, which then reads as
    holding no error, and an error recorded earlier is gone; no
    output is submitted and no request issued.  The tool-calls part
    leaves nothing but its transparency message, in the response to
    the user's message as well as in the response of a nested tool
    round trip. *)
Theorem undefined_rejection_drops_tool_calls :
  (exists st',
     handlePart (Some rejects_undefined)
       (fun payload => submitToolOutput None (Some rejects_undefined) sample_stringify
                         sample_nanoid payload None)
       (tool_calls calls_weather_and_time)
       (error_set (JString "earlier")
          (messages_update (push (user_message "m1" "hi" None))
             (initial [streams [] None])))
     = Returns st' /\
     error st' = JUndefined /\
     requests st' = [] /\
     length (network st') = 1 /\
     messages st' = [user_message "m1" "hi" None;
                     tool_calls_message calls_weather_and_time])
  /\
  (exists st',
     submitMessage None (Some rejects_undefined) sample_stringify sample_nanoid None
       (error_set (JString "earlier")
          (typing "hi" [streams [control "t1" "m1"; tool_calls calls_weather_and_time] None;
                        streams [] None]))
     = Returns st' /\
     error st' = JUndefined /\
     requests st' = [ {| rq_threadId := None; rq_message := Some "hi"; rq_content := None;
                         rq_data := None; rq_role := Some user |} ] /\
     messages st' = [user_message "m1" "hi" None;
                     tool_calls_message calls_weather_and_time])
  /\
  (exists st',
     submitMessage None (Some weather_else_undefined) sample_stringify sample_nanoid None
       (typing "hi" [streams [control "t1" "m1"; tool_calls calls_weather] None;
                     streams [control "t1" "m2"; tool_calls calls_time] None;
                     streams [] None])
     = Returns st' /\
     error st' = JUndefined /\
     requests st' = [ {| rq_threadId := None; rq_message := Some "hi"; rq_content := None;
                         rq_data := None; rq_role := Some user |};
                      {| rq_threadId := Some "t1"; rq_message := None;
                         rq_content := Some [ {| tool_call_id := "c1"; output := "sunny" |} ];
                         rq_data := None; rq_role := Some tool |} ] /\
     messages st' = [user_message "m1" "hi" None;
                     tool_calls_message calls_weather;
                     tool_output_message "m2" "c1=sunny" None;
                     tool_calls_message calls_time]).
Proof.
  split; [|split]; eexists; (split; [vm_compute; reflexivity|]); vm_compute; repeat split.
Qed.



(** C8: without a handler, a tool-calls part records an error whose
    text is the fixed prefix followed by the requested function names
    joined by a comma, hence mentions each of them, and its handling
    issues no request: the request log and the network script are as
    before. *)
Theorem unhandled_tool_calls_recorded
    (submit : list ToolCallOutput -> State -> Outcome) (value : ToolCallMessage)
    (st : State) :
  let names := map (fun call => name (function call)) (tcm_tool_calls value) in
  exists st' report,
    handlePart None submit (tool_calls value) st = Returns st' /\
    error st' = JString report /\
    report = String.append unhandled_prefix (String.concat ", " names) /\
    (forall n, In n names -> mentions n report) /\
    requests st' = requests st /\
    network st' = network st /\
    messages st' = messages st ++ [tool_calls_message value].
Proof.
  intros names. cbn [handlePart]. cbv zeta.
  eexists. exists (String.append unhandled_prefix (String.concat ", " names)).
  split; [reflexivity|].
  repeat split.
  intros n I. now apply mentions_later, mentions_concat.
Qed.

(** Scenario D: two calls, no handler. *)
Example unhandled_tool_calls_two_names :
  error (final (submitMessage None None sample_stringify sample_nanoid None
                  (typing "hi" [streams [tool_calls calls_weather_and_time] None])))
  = JString "onToolCall is not defined for this assistant. Tool call names invoked weather, time"
  /\
  length (requests (final (submitMessage None None sample_stringify sample_nanoid None
                  (typing "hi" [streams [tool_calls calls_weather_and_time] None])))) = 1.
Proof. split; reflexivity. Qed.

(** ** Thread identifier (C4) *)

(** C4, as stated, does not hold: the first control-data part of a
    response binds the thread to [t1]; in the state so reached, a
    later control-data part carrying [t2] rebinds it to [t2]. *)
Lemma threadId_rebound_by_later_control_data :
  exists bound,
    consume None (fun payload => submitToolOutput None None sample_stringify sample_nanoid
                                   payload None)
      [control "t1" "m1"] None
      (messages_update (push {| m_id := EmptyString; m_role := user; m_content := "hi";
                                m_data := None; m_tool_calls := None |}) (initial []))
    = Returns bound /\
    threadId bound = Some "t1" /\
    threadId (final (handlePart None
                       (fun payload => submitToolOutput None None sample_stringify
                                         sample_nanoid payload None)
                       (control "t2" "m2") bound)) = Some "t2" /\
    threadId (final (submitMessage None None sample_stringify sample_nanoid None
                       (typing "hi" [streams [control "t1" "m1"; control "t2" "m2"] None])))
    = Some "t2".
Proof. eexists. repeat split. Qed.

(** C4, amended: processing a control-data part always leaves
    [threadId] bound to the value the part carries, whatever was bound
    before (in the current hook and in the earlier one). *)
Theorem control_data_binds_threadId (onToolCall : option Handler)
    (submit : list ToolCallOutput -> State -> Outcome) (value : ControlData) (st : State) :
  threadId (final (handlePart onToolCall submit (assistant_control_data value) st))
    = Some (cd_threadId value)
  /\ threadId (final (Legacy.handlePart (assistant_control_data value) st))
    = Some (cd_threadId value).
Proof.
  cbn [handlePart Legacy.handlePart]. cbv zeta.
  destruct (lastMessage _); split; reflexivity.
Qed.

(** ** Producer session (C5, C6) *)

(** C5: the stream of a session starts with the control-data part
    carrying the given identifiers, followed by what the callback sent
    in call order and then by at most one error part; it holds no
    other control-data part. *)
Theorem control_data_is_first (threadId messageId : string)
    (process : AssistantResponseCallback) :
  let out := chunks (stream (experimental_AssistantResponse threadId messageId process)) in
  let first :=
    assistant_control_data {| cd_threadId := threadId; cd_messageId := messageId |} in
  exists tail,
    out = first :: map part_of (sent (process threadId messageId)) ++ tail /\
    (tail = [] \/ exists errorMessage, tail = [error_part errorMessage]) /\
    filter is_control_data out = [first].
Proof.
  intros out first. subst out. rewrite session_chunks. fold first.
  eexists. split; [reflexivity|].
  assert (forall tail, (tail = [] \/ exists errorMessage, tail = [error_part errorMessage]) ->
            filter is_control_data (first :: map part_of (sent (process threadId messageId)) ++ tail)
            = [first]) as K.
  { intros tail T. simpl. rewrite filter_app, callback_sends_no_control_data.
    destruct T as [-> | (m & ->)]; reflexivity. }
  destruct (rejection (process threadId messageId)) as [err|].
  - destruct (failure_text err) as [raised | errorMessage].
    + split; [now left | apply K; now left].
    + split; [right; now exists errorMessage | apply K; right; now exists errorMessage].
  - split; [now left | apply K; now left].
Qed.

(** C6, where the code departs from it: a callback that rejects with
    [undefined] after sending one message.  The [catch] clause fails
    while reading [message], no error part is written, and the promise
    of [start] is rejected; the stream is still closed once. *)
Theorem undefined_rejection_sends_no_error_part :
  chunks (stream (experimental_AssistantResponse "t1" "m1" (sends_then_rejects JUndefined)))
  = [ control "t1" "m1";
      assistant_message {| am_id := "a1"; am_role := assistant;
                           am_content := [ {| text := Some "partial" |} ] |} ]
  /\ filter is_error_part
       (chunks (stream (experimental_AssistantResponse "t1" "m1"
                          (sends_then_rejects JUndefined)))) = []
  /\ start_rejection (experimental_AssistantResponse "t1" "m1" (sends_then_rejects JUndefined))
     = Some (TypeError "Cannot read properties of undefined (reading 'message')")
  /\ closeCalls (stream (experimental_AssistantResponse "t1" "m1"
                           (sends_then_rejects JUndefined))) = 1.
Proof.
  split; [|split; [|split]].
  - now rewrite session_chunks.
  - now rewrite session_chunks.
  - reflexivity.
  - apply stream_closed_exactly_once.
Qed.

(** The same callback failing with an [Error] object. *)
Example error_rejection_sends_its_message :
  chunks (stream (experimental_AssistantResponse "t1" "m1"
                    (sends_then_rejects (new_Error "boom"))))
  = [ control "t1" "m1";
      assistant_message {| am_id := "a1"; am_role := assistant;
                           am_content := [ {| text := Some "partial" |} ] |};
      error_part "boom" ].
Proof.
  now destruct (rejection_sends_one_error_part "t1" "m1"
                  (sends_then_rejects (new_Error "boom")) (new_Error "boom") "boom"
                  eq_refl eq_refl) as [-> _].
Qed.

(** ** History (C9) *)




(** ** Assistant messages (C10) *)



(** * Further properties of the code *)

(** ** Relations kept by every step *)

(** A relation between states that is reflexive and transitive and
    holds for each elementary update of [handleIncomingResponse] and
    [submitToolOutput] holds for their runs, nested calls included. *)
Section Stepwise.

Variable threadIdParam : option string.
Variable onToolCall : option Handler.
Variable JSON_stringify : list ToolCallOutput -> string.
Variable nanoid : nat -> string.

Variable R : State -> State -> Prop.
Hypothesis R_refl : forall st, R st st.
Hypothesis R_trans : forall a b c, R a b -> R b c -> R a c.
Hypothesis R_messages : forall f st, R st (messages_update f st).
Hypothesis R_error : forall v st, R st (error_set v st).
Hypothesis R_threadId : forall v st, R st (threadId_set v st).
Hypothesis R_status : forall v st, R st (status_set v st).
Hypothesis R_tool_message : forall m st, R st (with_tool_message m st).
Hypothesis R_tool_fetch : forall payload requestData st,
  R st (snd (fetch (tool_request threadIdParam payload requestData st) st)).

Lemma handlePart_respects submit (part : StreamPart) (st : State) :
  respecting R submit -> R st (final (handlePart onToolCall submit part st)).
Proof.
  intros Hs. destruct part as [value | value | value | value | value];
    cbn [handlePart].
  - destruct (am_content value) as [|block rest]; [apply R_refl|].
    destruct (text block); cbn [final]; [apply R_messages | apply R_refl].
  - apply R_messages.
  - cbv zeta. destruct onToolCall as [handler|].
    + destruct (Promise_all _) as [err | outs]; cbn [final].
      * eapply R_trans; [apply R_messages | apply R_error].
      * match goal with |- context [submit ?o ?s] =>
          pose proof (Hs o s) as E; destruct (submit o s) as [st2 | err st2] end;
          cbn [final] in *.
        -- eapply R_trans; [apply R_messages | exact E].
        -- eapply R_trans; [apply R_messages|].
           eapply R_trans; [exact E | apply R_error].
    + cbn [final]. eapply R_trans; [apply R_messages | apply R_error].
  - cbv zeta. destruct (lastMessage _) as [last|]; cbn [final].
    + eapply R_trans; [apply R_threadId | apply R_messages].
    + apply R_threadId.
  - apply R_error.
Qed.

Lemma consume_respects submit (ps : list StreamPart) ending (st : State) :
  respecting R submit -> R st (final (consume onToolCall submit ps ending st)).
Proof.
  intros Hs. revert st. induction ps as [|part rest IH]; intros st; simpl.
  - destruct ending; apply R_refl.
  - pose proof (handlePart_respects submit part st Hs) as E.
    destruct (handlePart onToolCall submit part st) as [st' | e st']; simpl in *.
    + eapply R_trans; [exact E | apply IH].
    + exact E.
Qed.

Lemma handleIncomingResponse_respects submit (result : Response) (st : State) :
  respecting R submit ->
  R st (final (handleIncomingResponse onToolCall submit result st)).
Proof.
  intros Hs. unfold handleIncomingResponse.
  destruct (body result) as [stream|]; simpl; [|apply R_refl].
  pose proof (consume_respects submit (parts stream) (failure stream) st Hs) as E.
  now destruct (consume _ _ _ _ _).
Qed.

Lemma submitToolOutput_body_respects submit payload requestData (st : State) :
  respecting R submit ->
  R st (final (submitToolOutput_body threadIdParam onToolCall JSON_stringify nanoid
                 submit payload requestData st)).
Proof.
  intros Hs. unfold submitToolOutput_body. cbv zeta.
  match goal with |- context [fetch ?r ?s] =>
    change s with (with_tool_message
                     {| m_id := nanoid (nanoids st); m_role := tool;
                        m_content := JSON_stringify payload; m_data := requestData;
                        m_tool_calls := None |} (status_set in_progress st));
    change r with (tool_request threadIdParam payload requestData
                     (with_tool_message
                        {| m_id := nanoid (nanoids st); m_role := tool;
                           m_content := JSON_stringify payload; m_data := requestData;
                           m_tool_calls := None |} (status_set in_progress st)))
  end.
  match goal with |- context [fetch ?r ?s] =>
    assert (R st (snd (fetch r s))) as F
      by (eapply R_trans; [apply R_status|];
          eapply R_trans; [apply R_tool_message | apply R_tool_fetch]);
    destruct (fetch r s) as [[reason | result] st3] end;
    cbn [snd] in F; [exact F|].
  pose proof (handleIncomingResponse_respects submit result st3 Hs) as E.
  destruct (handleIncomingResponse _ _ _ _) as [st4 | e st4]; cbn [final] in *.
  - eapply R_trans; [exact F|]. eapply R_trans; [exact E | apply R_status].
  - eapply R_trans; eassumption.
Qed.

Lemma submitToolOutput_at_respects (depth : nat) requestData :
  respecting R (submitToolOutput_at threadIdParam onToolCall JSON_stringify nanoid
                  depth requestData).
Proof.
  revert requestData. induction depth as [|d IH]; intros requestData payload st; simpl;
    apply submitToolOutput_body_respects.
  - intros p s. apply R_refl.
  - apply IH.
Qed.

Lemma submitToolOutput_respects requestData :
  respecting R (fun payload =>
    submitToolOutput threadIdParam onToolCall JSON_stringify nanoid payload requestData).
Proof. intros payload st. apply submitToolOutput_at_respects. Qed.

End Stepwise.

(** ** The input field *)

(** [submitToolOutput] never touches the input field ("no touching
    input store as well"), whatever the response and the nested round
    trips do; after [submitMessage] the input field is empty, whether
    the call was a no-op on an empty input or has sent the text. *)
Theorem input_after_submit (threadIdParam : option string) (onToolCall : option Handler)
    (JSON_stringify : list ToolCallOutput -> string) (nanoid : nat -> string)
    (requestData : option Json) (payload : list ToolCallOutput) (st : State) :
  input (final (submitToolOutput threadIdParam onToolCall JSON_stringify nanoid
                  payload requestData st)) = input st
  /\
  input (final (submitMessage threadIdParam onToolCall JSON_stringify nanoid
                  requestData st)) = EmptyString.
Proof.
  assert (forall data, respecting (fun a b => input b = input a)
            (fun p => submitToolOutput threadIdParam onToolCall JSON_stringify nanoid
                        p data)) as K.
  { intros data. apply submitToolOutput_respects; try reflexivity.
    - intros a b c H1 H2. congruence.
    - intros p d s. unfold fetch. now destruct (network s). }
  split; [apply (K requestData)|].
  unfold submitMessage. destruct (String.eqb (input st) EmptyString) eqn:I.
  - now apply String.eqb_eq in I.
  - cbv zeta. unfold fetch. cbn [network input_set messages_update status_set].
    destruct (network st) as [|answer rest]; [reflexivity|].
    destruct (answer _) as [reason | result]; [reflexivity|].
    match goal with |- context [handleIncomingResponse ?o ?sub ?res ?s0] =>
      assert (input (final (handleIncomingResponse o sub res s0)) = input s0) as E
        by (apply (handleIncomingResponse_respects o (fun a b => input b = input a));
            try reflexivity; [intros a b c H1 H2; congruence | apply (K None)]);
      destruct (handleIncomingResponse o sub res s0) end; exact E.
Qed.

(** ** The thread identifier of the requests *)

Lemma Forall_threadId_app (t : string) (a b : list Request) :
  Forall (fun r => rq_threadId r = Some t) a ->
  Forall (fun r => rq_threadId r = Some t) b ->
  Forall (fun r => rq_threadId r = Some t) (a ++ b).
Proof. intros Ha Hb. apply Forall_app. now split. Qed.

(** "Always use user-provided threadId when available": when the hook
    is given a [threadId] option, every request a call issues, the
    nested tool-output requests included, carries that identifier,
    whatever thread the responses announce. *)
Theorem requests_carry_threadIdParam (t : string) (onToolCall : option Handler)
    (JSON_stringify : list ToolCallOutput -> string) (nanoid : nat -> string)
    (requestData : option Json) (payload : list ToolCallOutput) (st : State) :
  (exists issued,
     requests (final (submitMessage (Some t) onToolCall JSON_stringify nanoid
                        requestData st)) = requests st ++ issued /\
     Forall (fun r => rq_threadId r = Some t) issued)
  /\
  (exists issued,
     requests (final (submitToolOutput (Some t) onToolCall JSON_stringify nanoid
                        payload requestData st)) = requests st ++ issued /\
     Forall (fun r => rq_threadId r = Some t) issued).
Proof.
  set (R := fun a b : State =>
              exists issued, requests b = requests a ++ issued /\
                             Forall (fun r => rq_threadId r = Some t) issued).
  assert (forall s, R s s) as Rrefl.
  { intros s. exists []. split; [now rewrite app_nil_r | constructor]. }
  assert (forall a b c, R a b -> R b c -> R a c) as Rtrans.
  { intros a b c (i1 & E1 & F1) (i2 & E2 & F2). exists (i1 ++ i2). split.
    - now rewrite E2, E1, app_assoc.
    - now apply Forall_threadId_app. }
  assert (forall a b, requests b = requests a -> R a b) as Rsame.
  { intros a b Q. exists []. split; [now rewrite app_nil_r | constructor]. }
  assert (forall req s, rq_threadId req = Some t -> R s (snd (fetch req s))) as Rfetch.
  { intros req s P. exists [req]. split; [apply fetch_requests | now repeat constructor]. }
  assert (forall data, respecting R
            (fun p => submitToolOutput (Some t) onToolCall JSON_stringify nanoid p data))
    as K.
  { intros data. apply submitToolOutput_respects; try assumption;
      try (intros; now apply Rsame).
    intros p d s. now apply Rfetch. }
  split; [|apply (K requestData)].
  unfold submitMessage. destruct (String.eqb (input st) EmptyString); [apply Rrefl|].
  cbv zeta.
  match goal with |- context [fetch ?r ?s] =>
    assert (R st (snd (fetch r s))) as F
      by (eapply Rtrans; [apply Rsame; reflexivity | apply (Rfetch r s eq_refl)]);
    destruct (fetch r s) as [[reason | result] st4] end; cbn [snd] in F; [exact F|].
  match goal with |- context [handleIncomingResponse ?o ?sub ?res ?s0] =>
    assert (R s0 (final (handleIncomingResponse o sub res s0))) as E
      by (apply (handleIncomingResponse_respects o R); try assumption;
          try (intros; now apply Rsame); apply (K None));
    destruct (handleIncomingResponse o sub res s0) end; cbn [final] in *.
  - eapply Rtrans; [exact F|]. eapply Rtrans; [exact E | now apply Rsame].
  - eapply Rtrans; eassumption.
Qed.

(** ** What a call appends and sends first *)

Lemma same_but_id_user_message (content : string) (requestData : option Json)
    (i : string) (m : Message) :
  same_but_id (user_message i content requestData) m ->
  m = user_message (m_id m) content requestData.
Proof.
  destruct m as [mi mr mc md mt]. unfold same_but_id, user_message. simpl.
  now intros (-> & -> & -> & ->).
Qed.

Lemma same_but_id_tool_output_message (content : string) (requestData : option Json)
    (i : string) (m : Message) :
  same_but_id (tool_output_message i content requestData) m ->
  m = tool_output_message (m_id m) content requestData.
Proof.
  destruct m as [mi mr mc md mt]. unfold same_but_id, tool_output_message. simpl.
  now intros (-> & -> & -> & ->).
Qed.


(** A call to [submitMessage] on a non-empty input first sends the
    request carrying the typed text, the caller's data, the role
    [user] and the thread identifier (the option, else the bound one,
    else [null]); and whatever the response does, the history holds at
    its former end the user message with that text and data: only its
    [id] may differ from the empty one it is appended with. *)
Theorem submitMessage_sends_and_appends (threadIdParam : option string)
    (onToolCall : option Handler) (JSON_stringify : list ToolCallOutput -> string)
    (nanoid : nat -> string) (requestData : option Json) (st : State) :
  input st <> EmptyString ->
  let st' := final (submitMessage threadIdParam onToolCall JSON_stringify nanoid
                      requestData st) in
  (exists later,
     requests st' = requests st ++ user_request threadIdParam requestData st :: later)
  /\
  (exists i,
     nth_error (messages st') (length (messages st))
     = Some (user_message i (input st) requestData)).
Proof.
  intros I st'. subst st'. apply String.eqb_neq in I.
  unfold submitMessage. rewrite I. cbv zeta.
  match goal with |- context [fetch ?r ?s] =>
    change r with (user_request threadIdParam requestData st) end.
  match goal with |- context [fetch ?r ?s] =>
    pose proof (fetch_requests r s) as Q; pose proof (evolves_fetch r s) as F;
    destruct (fetch r s) as [[reason | result] st4] end; cbn [snd] in *.
  - cbn [final]. split; [now exists []|].
    apply ev_messages in F. cbn [messages messages_update input_set status_set] in F.
    destruct (grows_nth _ _ _ _ F (nth_error_snoc (messages st) _)) as (m' & N & S & _).
    exists (m_id m'). rewrite N. f_equal.
    now apply (same_but_id_user_message _ _ EmptyString).
  - pose proof (handleIncomingResponse_evolves onToolCall _ result st4
                  (submitToolOutput_evolving threadIdParam onToolCall JSON_stringify nanoid))
      as E.
    assert (evolves (input_set EmptyString
                       (messages_update (push (user_message EmptyString (input st) requestData))
                          (status_set in_progress st)))
                    (final (handleIncomingResponse onToolCall
                       (fun payload => submitToolOutput threadIdParam onToolCall
                                         JSON_stringify nanoid payload None) result st4)))
      as V by (eapply evolves_trans; eassumption).
    assert (forall o, final match o with
                            | Returns st5 => Returns (status_set awaiting_message st5)
                            | Throws e st5 => Throws e st5
                            end = match o with
                                  | Returns st5 => status_set awaiting_message st5
                                  | Throws e st5 => st5
                                  end) as Fin by (now intros []).
    rewrite Fin. split.
    + apply ev_requests in E. destruct E as (later & E). exists later.
      destruct (handleIncomingResponse _ _ _ _); cbn [final requests status_set] in *;
        rewrite E, Q, <- app_assoc; reflexivity.
    + apply ev_messages in V. cbn [messages messages_update input_set status_set] in V.
      destruct (grows_nth _ _ _ _ V (nth_error_snoc (messages st) _)) as (m' & N & S & _).
      exists (m_id m').
      destruct (handleIncomingResponse _ _ _ _); cbn [final messages status_set] in *;
        rewrite N; f_equal; now apply (same_but_id_user_message _ _ EmptyString).
Qed.

Lemma submitMessage_sends_and_appends_example :
  (exists later,
     requests (final (submitMessage None None sample_stringify sample_nanoid (Some "{}")
                        (typing "hi" [streams [control "t1" "m1"; says "a1" "hello"] None])))
     = [] ++ {| rq_threadId := None; rq_message := Some "hi"; rq_content := None;
                rq_data := Some "{}"; rq_role := Some user |} :: later)
  /\
  (exists i,
     nth_error
       (messages (final (submitMessage None None sample_stringify sample_nanoid (Some "{}")
                        (typing "hi" [streams [control "t1" "m1"; says "a1" "hello"] None]))))
       0 = Some (user_message i "hi" (Some "{}"))).
Proof.
  apply (submitMessage_sends_and_appends None None sample_stringify sample_nanoid
           (Some "{}")
           (typing "hi" [streams [control "t1" "m1"; says "a1" "hello"] None])).
  discriminate.
Defined.

(** A call to [submitToolOutput] first sends the request carrying the
    payload as [content], the caller's data and the role [tool]; and
    whatever the response does, the history holds at its former end
    the tool message whose content is the serialized payload: only its
    [id] may differ from the generated one it is appended with. *)
Theorem submitToolOutput_sends_and_appends (threadIdParam : option string)
    (onToolCall : option Handler) (JSON_stringify : list ToolCallOutput -> string)
    (nanoid : nat -> string) (requestData : option Json)
    (payload : list ToolCallOutput) (st : State) :
  let st' := final (submitToolOutput threadIdParam onToolCall JSON_stringify nanoid
                      payload requestData st) in
  (exists later,
     requests st' = requests st ++ tool_request threadIdParam payload requestData st :: later)
  /\
  (exists i,
     nth_error (messages st') (length (messages st))
     = Some (tool_output_message i (JSON_stringify payload) requestData)).
Proof.
  intros st'. subst st'. split; [apply submitToolOutput_requests|].
  rewrite submitToolOutput_unfold. unfold submitToolOutput_body. cbv zeta.
  match goal with |- context [fetch ?r ?s] =>
    pose proof (evolves_fetch r s) as F;
    destruct (fetch r s) as [[reason | result] st3] end; cbn [snd] in *.
  - cbn [final]. apply ev_messages in F. cbn [messages status_set] in F.
    destruct (grows_nth _ _ _ _ F (nth_error_snoc (messages st) _)) as (m' & N & S & _).
    exists (m_id m'). rewrite N. f_equal.
    now apply (same_but_id_tool_output_message _ _ (nanoid (nanoids st))).
  - pose proof (handleIncomingResponse_evolves onToolCall _ result st3
                  (submitToolOutput_evolving threadIdParam onToolCall JSON_stringify nanoid))
      as E.
    pose proof (evolves_trans _ _ _ F E) as V.
    apply ev_messages in V. cbn [messages status_set] in V.
    destruct (grows_nth _ _ _ _ V (nth_error_snoc (messages st) _)) as (m' & N & S & _).
    exists (m_id m').
    destruct (handleIncomingResponse _ _ _ _); cbn [final messages status_set] in *;
      rewrite N; f_equal;
      now apply (same_but_id_tool_output_message _ _ (nanoid (nanoids st))).
Qed.

(** ** Responses without tool calls *)

(** A part other than a tool-calls part is handled without any call
    to [submitToolOutput]: the request log, the network, the status,
    the input and the count of generated identifiers are as before. *)
Lemma handlePart_tool_free onToolCall submit (part : StreamPart) (st : State) :
  tool_free part ->
  let st' := final (handlePart onToolCall submit part st) in
  requests st' = requests st /\ network st' = network st /\ status st' = status st /\
  input st' = input st /\ nanoids st' = nanoids st /\
  error st' = match part with error_part v => JString v | _ => error st end.
Proof.
  intros T. destruct part as [value | value | value | value | value];
    cbn [handlePart]; try contradiction.
  - destruct (am_content value) as [|block rest]; [now repeat split|].
    destruct (text block); now repeat split.
  - now repeat split.
  - cbv zeta. destruct (lastMessage _); now repeat split.
  - now repeat split.
Qed.

Lemma consume_tool_free onToolCall submit (ps : list StreamPart) ending (st : State) :
  Forall tool_free ps ->
  let st' := final (consume onToolCall submit ps ending st) in
  requests st' = requests st /\ network st' = network st /\ status st' = status st /\
  input st' = input st /\ nanoids st' = nanoids st.
Proof.
  intros F. revert st. induction F as [|part rest T F IH]; intros st; simpl.
  - destruct ending; now repeat split.
  - pose proof (handlePart_tool_free onToolCall submit part st T) as H.
    destruct (handlePart onToolCall submit part st) as [st1 | e st1]; simpl in H.
    + destruct H as (Q & N & S & I & G & _). specialize (IH st1). simpl in IH.
      destruct IH as (Q' & N' & S' & I' & G'). repeat split; congruence.
    + simpl. tauto.
Qed.

(** A response without tool-calls part triggers no further network
    activity: the call issues its own request and no other, whether it
    returns or throws. *)
Theorem single_request_without_tool_calls (threadIdParam : option string)
    (onToolCall : option Handler) (JSON_stringify : list ToolCallOutput -> string)
    (nanoid : nat -> string) (requestData : option Json)
    (payload : list ToolCallOutput) (st : State)
    (answer : Request -> Fetched) (rest : list (Request -> Fetched))
    (stream : DecodedStream) :
  network st = answer :: rest ->
  (forall req, answer req = inr {| body := Some stream |}) ->
  Forall tool_free (parts stream) ->
  (input st <> EmptyString ->
   requests (final (submitMessage threadIdParam onToolCall JSON_stringify nanoid
                      requestData st))
   = requests st ++ [user_request threadIdParam requestData st])
  /\
  requests (final (submitToolOutput threadIdParam onToolCall JSON_stringify nanoid
                     payload requestData st))
  = requests st ++ [tool_request threadIdParam payload requestData st].
Proof.
  intros N A T. split.
  - intros I. apply String.eqb_neq in I.
    unfold submitMessage. rewrite I. cbv zeta. unfold fetch.
    cbn [network input_set messages_update status_set]. rewrite N, A.
    unfold handleIncomingResponse. cbn [body].
    match goal with |- context [consume ?o ?f ?ps ?e ?s0] =>
      destruct (consume_tool_free o f ps e s0 T) as (Q & _);
      destruct (consume o f ps e s0) end; exact Q.
  - rewrite submitToolOutput_unfold. unfold submitToolOutput_body. cbv zeta. unfold fetch.
    cbn [network status_set]. rewrite N, A.
    unfold handleIncomingResponse. cbn [body].
    match goal with |- context [consume ?o ?f ?ps ?e ?s0] =>
      destruct (consume_tool_free o f ps e s0 T) as (Q & _);
      destruct (consume o f ps e s0) end; exact Q.
Qed.

Lemma single_request_without_tool_calls_example :
  requests (final (submitToolOutput None (Some knows_all) sample_stringify sample_nanoid
                     [ {| tool_call_id := "c1"; output := "sunny" |} ] None
                     (initial [streams [control "t1" "m1"; says "a1" "fine"] None;
                               streams [] None])))
  = [] ++ [tool_request None [ {| tool_call_id := "c1"; output := "sunny" |} ] None
             (initial [streams [control "t1" "m1"; says "a1" "fine"] None;
                       streams [] None])].
Proof.
  refine (proj2 (single_request_without_tool_calls None (Some knows_all) sample_stringify
                   sample_nanoid None [ {| tool_call_id := "c1"; output := "sunny" |} ]
                   (initial [streams [control "t1" "m1"; says "a1" "fine"] None;
                             streams [] None])
                   _ _ {| parts := [control "t1" "m1"; says "a1" "fine"]; failure := None |}
                   eq_refl (fun _ => eq_refl) _)).
  repeat constructor.
Defined.

(** ** The error store *)

Lemma consume_quiet onToolCall submit (ps : list StreamPart) ending (st : State) :
  Forall tool_free ps -> Forall error_free ps ->
  error (final (consume onToolCall submit ps ending st)) = error st.
Proof.
  intros T. revert st. induction T as [|part rest T F IH]; intros st Q; simpl.
  - now destruct ending.
  - inversion Q as [|? ? Qp Qr]; subst.
    pose proof (handlePart_tool_free onToolCall submit part st T) as H.
    destruct (handlePart onToolCall submit part st) as [st1 | e st1]; simpl in H;
      destruct H as (_ & _ & _ & _ & _ & E).
    + rewrite (IH st1 Qr), E. now destruct part.
    + simpl. rewrite E. now destruct part.
Qed.

Lemma consume_last_error onToolCall submit (ps : list StreamPart) ending
    (st st' : State) :
  Forall tool_free ps ->
  consume onToolCall submit ps ending st = Returns st' ->
  error st' = last_error ps (error st).
Proof.
  intros T. revert st. induction T as [|part rest T F IH]; intros st E; simpl in E.
  - destruct ending; [discriminate|]. now injection E as <-.
  - pose proof (handlePart_tool_free onToolCall submit part st T) as H.
    destruct (handlePart onToolCall submit part st) as [st1 | e st1]; [|discriminate].
    simpl in H. destruct H as (_ & _ & _ & _ & _ & H).
    rewrite (IH st1 E). unfold last_error. simpl. rewrite H. now destruct part.
Qed.

(** A submission never clears the error store: when the response has
    neither an error part nor a tool-calls part, the error recorded
    before the call is still there after it, whether the call returns
    or throws (a failing iteration does not record its failure). *)
Theorem stale_error_survives (threadIdParam : option string)
    (onToolCall : option Handler) (JSON_stringify : list ToolCallOutput -> string)
    (nanoid : nat -> string) (requestData : option Json)
    (payload : list ToolCallOutput) (st : State)
    (answer : Request -> Fetched) (rest : list (Request -> Fetched))
    (stream : DecodedStream) :
  network st = answer :: rest ->
  (forall req, answer req = inr {| body := Some stream |}) ->
  Forall tool_free (parts stream) -> Forall error_free (parts stream) ->
  error (final (submitMessage threadIdParam onToolCall JSON_stringify nanoid
                  requestData st)) = error st
  /\
  error (final (submitToolOutput threadIdParam onToolCall JSON_stringify nanoid
                  payload requestData st)) = error st.
Proof.
  intros N A T Q. split.
  - unfold submitMessage. destruct (String.eqb _ _); [reflexivity|].
    cbv zeta. unfold fetch.
    cbn [network input_set messages_update status_set]. rewrite N, A.
    unfold handleIncomingResponse. cbn [body].
    match goal with |- context [consume ?o ?f ?ps ?e ?s0] =>
      pose proof (consume_quiet o f ps e s0 T Q) as E;
      destruct (consume o f ps e s0) end; exact E.
  - rewrite submitToolOutput_unfold. unfold submitToolOutput_body. cbv zeta. unfold fetch.
    cbn [network status_set]. rewrite N, A.
    unfold handleIncomingResponse. cbn [body].
    match goal with |- context [consume ?o ?f ?ps ?e ?s0] =>
      pose proof (consume_quiet o f ps e s0 T Q) as E;
      destruct (consume o f ps e s0) end; exact E.
Qed.

Lemma stale_error_survives_example :
  error (final (submitMessage None None sample_stringify sample_nanoid None
                  (error_set (JString "overloaded")
                     (typing "again" [streams [control "t1" "m1"; says "a1" "hello"] None]))))
  = JString "overloaded"
  /\
  error (final (submitToolOutput None None sample_stringify sample_nanoid [] None
                  (error_set (JString "overloaded")
                     (typing "again" [streams [control "t1" "m1"; says "a1" "hello"] None]))))
  = JString "overloaded".
Proof.
  refine (stale_error_survives None None sample_stringify sample_nanoid None []
            (error_set (JString "overloaded")
               (typing "again" [streams [control "t1" "m1"; says "a1" "hello"] None]))
            _ _ {| parts := [control "t1" "m1"; says "a1" "hello"]; failure := None |}
            eq_refl (fun _ => eq_refl) _ _); repeat constructor.
Defined.

(** An error part does not stop the loop, and a later one replaces an
    earlier one: after a response without tool-calls part that is
    consumed to its end, the error store holds the payload of the last
    error part, or what it held before when there is none. *)
Theorem last_error_part_wins (threadIdParam : option string)
    (onToolCall : option Handler) (JSON_stringify : list ToolCallOutput -> string)
    (nanoid : nat -> string) (requestData : option Json) (st st' : State)
    (answer : Request -> Fetched) (rest : list (Request -> Fetched))
    (stream : DecodedStream) :
  network st = answer :: rest ->
  (forall req, answer req = inr {| body := Some stream |}) ->
  Forall tool_free (parts stream) ->
  input st <> EmptyString ->
  submitMessage threadIdParam onToolCall JSON_stringify nanoid requestData st
    = Returns st' ->
  error st' = last_error (parts stream) (error st).
Proof.
  intros N A T I. apply String.eqb_neq in I.
  unfold submitMessage. rewrite I. cbv zeta. unfold fetch.
  cbn [network input_set messages_update status_set]. rewrite N, A.
  unfold handleIncomingResponse. cbn [body].
  match goal with |- context [consume ?o ?f ?ps ?e ?s0] =>
    destruct (consume o f ps e s0) as [st5 | e5 st5] eqn:C end; [|discriminate].
  intros [= <-]. cbn [error status_set].
  apply (consume_last_error _ _ _ _ _ _ T) in C. exact C.
Qed.

Lemma last_error_part_wins_example :
  error {| messages := [ user_message "m1" "hi" None;
                         {| m_id := "a1"; m_role := assistant; m_content := "hello";
                            m_data := None; m_tool_calls := None |} ];
           input := EmptyString; threadId := Some "t1"; status := awaiting_message;
           error := JString "second"; network := [];
           requests := [ user_request None None (typing "hi" []) ];
           nanoids := 0 |}
  = last_error [control "t1" "m1"; error_part "first"; says "a1" "hello";
                error_part "second"] JUndefined.
Proof.
  apply (last_error_part_wins None None sample_stringify sample_nanoid None
           (typing "hi" [streams [control "t1" "m1"; error_part "first"; says "a1" "hello";
                                  error_part "second"] None])
           _ _ []
           {| parts := [control "t1" "m1"; error_part "first"; says "a1" "hello";
                        error_part "second"]; failure := None |}
           eq_refl (fun _ => eq_refl)).
  - repeat constructor.
  - discriminate.
  - reflexivity.
Defined.

(** ** Only a control-data part rewrites a message *)





(** While a sequence without control-data part is processed, every
    message of the history stays exactly as it is, its [id] and the
    last message included, even when tool round trips are nested whose
    responses carry control data: those back-fill the tool message of
    their own submission. *)
Theorem only_control_data_rewrites (threadIdParam : option string)
    (onToolCall : option Handler) (JSON_stringify : list ToolCallOutput -> string)
    (nanoid : nat -> string) (ps : list StreamPart) (ending : option JsVal)
    (st : State) (i : nat) (m : Message) :
  Forall control_free ps ->
  nth_error (messages st) i = Some m ->
  nth_error
    (messages (final (consume onToolCall
       (fun payload => submitToolOutput threadIdParam onToolCall JSON_stringify nanoid
                         payload None)
       ps ending st))) i = Some m.
Proof.
  intros C E. apply consume_control_free_keeps; [|exact C | exact E].
  apply submitToolOutput_evolving.
Qed.

Lemma only_control_data_rewrites_example :
  nth_error
    (messages (final (consume (Some knows_all)
       (fun payload => submitToolOutput None (Some knows_all) sample_stringify
                         sample_nanoid payload None)
       [tool_calls calls_weather_and_time; says "a1" "hello"] None
       (messages_update (push (user_message "u1" "hi" None))
          (initial [streams [control "t1" "m9"; says "a2" "done"] None])))))
    0 = Some (user_message "u1" "hi" None).
Proof.
  apply (only_control_data_rewrites None (Some knows_all) sample_stringify sample_nanoid
           [tool_calls calls_weather_and_time; says "a1" "hello"] None
           (messages_update (push (user_message "u1" "hi" None))
              (initial [streams [control "t1" "m9"; says "a2" "done"] None]))
           0 (user_message "u1" "hi" None)).
  - repeat constructor.
  - reflexivity.
Defined.

(** ** Plain responses *)

(** The parts of a plain response after its control data: no further
    control data and no tool calls, and every assistant message has a
    text in its first block. *)
Lemma handlePart_plain onToolCall submit (part : StreamPart) (st : State) :
  tool_free part -> control_free part -> readable part ->
  exists st',
    handlePart onToolCall submit part st = Returns st' /\
    messages st' = messages st ++ appended part /\
    threadId st' = threadId st.
Proof.
  intros T C R. destruct part as [value | value | value | value | value];
    cbn [handlePart]; try contradiction.
  - destruct R as (v & rest & E). unfold appended. rewrite E. simpl.
    eexists. now repeat split.
  - eexists. now repeat split.
  - eexists. split; [reflexivity|]. simpl. now rewrite app_nil_r.
Qed.

Lemma consume_plain onToolCall submit (ps : list StreamPart) (st : State) :
  Forall tool_free ps -> Forall control_free ps -> Forall readable ps ->
  exists st',
    consume onToolCall submit ps None st = Returns st' /\
    messages st' = messages st ++ flat_map appended ps /\
    threadId st' = threadId st.
Proof.
  intros T. revert st. induction T as [|part rest T F IH]; intros st C R; simpl.
  - exists st. now rewrite app_nil_r.
  - inversion C as [|? ? Cp Cr]; inversion R as [|? ? Rp Rr]; subst.
    destruct (handlePart_plain onToolCall submit part st T Cp Rp) as (st1 & -> & M & I).
    destruct (IH st1 Cr Rr) as (st' & -> & M' & I').
    exists st'. split; [reflexivity|]. split; [|congruence].
    now rewrite M', M, <- app_assoc.
Qed.


(** The plain round trip: the response starts with control data and
    goes on with assistant, data and error parts only.  The call
    returns idle with the thread bound; the history has grown by the
    user message, under the announced message identifier, followed by
    one message per assistant and data part in arrival order; the
    input is empty, one request was issued, and the error store holds
    the last error part if there is one. *)
Theorem plain_round_trip (threadIdParam : option string)
    (onToolCall : option Handler) (JSON_stringify : list ToolCallOutput -> string)
    (nanoid : nat -> string) (requestData : option Json) (st : State)
    (answer : Request -> Fetched) (rest : list (Request -> Fetched))
    (announced : ControlData) (ps : list StreamPart) :
  input st <> EmptyString ->
  network st = answer :: rest ->
  answer (user_request threadIdParam requestData st)
    = inr {| body := Some {| parts := assistant_control_data announced :: ps;
                             failure := None |} |} ->
  Forall tool_free ps -> Forall control_free ps -> Forall readable ps ->
  exists st',
    submitMessage threadIdParam onToolCall JSON_stringify nanoid requestData st
      = Returns st' /\
    messages st' = messages st
                   ++ user_message (cd_messageId announced) (input st) requestData
                   :: flat_map appended ps /\
    threadId st' = Some (cd_threadId announced) /\
    status st' = awaiting_message /\
    input st' = EmptyString /\
    error st' = last_error ps (error st) /\
    requests st' = requests st ++ [user_request threadIdParam requestData st] /\
    network st' = rest.
Proof.
  intros I N A T C R. apply String.eqb_neq in I.
  unfold submitMessage. rewrite I. cbv zeta. unfold fetch.
  cbn [network input_set messages_update status_set]. rewrite N.
  change {| rq_threadId := _; rq_message := Some (input st); rq_content := None;
            rq_data := requestData; rq_role := Some user |}
    with (user_request threadIdParam requestData st).
  rewrite A. unfold handleIncomingResponse. cbn [body parts failure consume].
  match goal with |- context [handlePart ?o ?f ?p ?s0] =>
    destruct (control_data_backfills o f announced s0 (messages st)
                (user_message EmptyString (input st) requestData) eq_refl)
      as (s1 & -> & M1 & B1 & I1 & S1 & E1 & Q1 & N1 & G1)
  end.
  cbn [input status error requests network messages threadId
       input_set messages_update status_set] in *.
  destruct (consume_plain onToolCall
              (fun payload => submitToolOutput threadIdParam onToolCall JSON_stringify
                                nanoid payload None) ps s1 T C R) as (st5 & E & M & B).
  pose proof (consume_tool_free onToolCall
                (fun payload => submitToolOutput threadIdParam onToolCall JSON_stringify
                                  nanoid payload None) ps None s1 T) as Q.
  pose proof (consume_last_error onToolCall
                (fun payload => submitToolOutput threadIdParam onToolCall JSON_stringify
                                  nanoid payload None) ps None s1 st5 T E) as L.
  rewrite E in *. cbn [final] in Q. destruct Q as (Q2 & N2 & S2 & I2 & _).
  eexists. split; [reflexivity|].
  cbn [messages threadId status input error requests network status_set].
  repeat split; try congruence.
  rewrite M, M1, <- app_assoc. reflexivity.
Qed.

Lemma plain_round_trip_example :
  exists st',
    submitMessage None None sample_stringify sample_nanoid None
      (typing "hi" [streams [control "t1" "m1"; says "a1" "hello"; error_part "late";
                             data_message {| dm_id := None; dm_data := "{}" |}] None])
      = Returns st' /\
    messages st' = [] ++ user_message "m1" "hi" None
                   :: flat_map appended
                        [says "a1" "hello"; error_part "late";
                         data_message {| dm_id := None; dm_data := "{}" |}] /\
    threadId st' = Some "t1" /\
    status st' = awaiting_message /\
    input st' = EmptyString /\
    error st' = last_error [says "a1" "hello"; error_part "late";
                            data_message {| dm_id := None; dm_data := "{}" |}] JUndefined /\
    requests st' = [] ++ [user_request None None
                            (typing "hi" [streams [control "t1" "m1"; says "a1" "hello";
                               error_part "late";
                               data_message {| dm_id := None; dm_data := "{}" |}] None])] /\
    network st' = [].
Proof.
  apply (plain_round_trip None None sample_stringify sample_nanoid None
           (typing "hi" [streams [control "t1" "m1"; says "a1" "hello"; error_part "late";
                                  data_message {| dm_id := None; dm_data := "{}" |}] None])
           (streams [control "t1" "m1"; says "a1" "hello"; error_part "late";
                     data_message {| dm_id := None; dm_data := "{}" |}] None)
           [] {| cd_threadId := "t1"; cd_messageId := "m1" |}
           [says "a1" "hello"; error_part "late";
            data_message {| dm_id := None; dm_data := "{}" |}]).
  - discriminate.
  - reflexivity.
  - reflexivity.
  - repeat constructor.
  - repeat constructor.
  - repeat constructor; now exists "hello", [].
Defined.

(** ** A produced response, consumed *)

Lemma produced_parts (thread message : string) (process : AssistantResponseCallback)
    (ending : option JsVal) :
  exists ps,
    parts (produced thread message process ending)
    = assistant_control_data {| cd_threadId := thread; cd_messageId := message |} :: ps /\
    Forall control_free ps.
Proof.
  unfold produced. cbn [parts]. rewrite session_chunks. eexists. split; [reflexivity|].
  apply Forall_app. split.
  - induction (sent (process thread message)) as [|s rest IH]; simpl; constructor;
      [now destruct s | exact IH].
  - destruct (rejection (process thread message)) as [err|]; [|constructor].
    destruct (failure_text err); repeat constructor.
Qed.

Lemma consume_unhandled_threadId submit (ps : list StreamPart) ending (st : State) :
  Forall control_free ps ->
  threadId (final (consume None submit ps ending st)) = threadId st.
Proof.
  intros C. revert st. induction C as [|part rest Cp C IH]; intros st; simpl.
  - now destruct ending.
  - assert (threadId (final (handlePart None submit part st)) = threadId st) as H.
    { destruct part as [value | value | value | value | value]; cbn [handlePart];
        try contradiction; try reflexivity.
      destruct (am_content value) as [|block r]; [reflexivity|].
      now destruct (text block). }
    destruct (handlePart None submit part st) as [st1 | e st1]; simpl in H.
    + now rewrite IH.
    + exact H.
Qed.

(** Producer and consumer together: when the body of the response to
    a submitted message decodes to the parts that a session of
    [experimental_AssistantResponse] wrote for [thread] and [message],
    then whatever the callback sent, however it ended and however the
    iteration ends, the user message of this call carries [message]
    as its [id] afterwards; and when no tool handler is configured the
    hook is bound to [thread]. *)
Theorem produced_response_is_bound (threadIdParam : option string)
    (onToolCall : option Handler) (JSON_stringify : list ToolCallOutput -> string)
    (nanoid : nat -> string) (requestData : option Json) (st : State)
    (answer : Request -> Fetched) (rest : list (Request -> Fetched))
    (thread message : string) (process : AssistantResponseCallback)
    (ending : option JsVal) :
  input st <> EmptyString ->
  network st = answer :: rest ->
  (forall req, answer req = inr {| body := Some (produced thread message process ending) |}) ->
  let st' := final (submitMessage threadIdParam onToolCall JSON_stringify nanoid
                      requestData st) in
  nth_error (messages st') (length (messages st))
    = Some (user_message message (input st) requestData)
  /\ (onToolCall = None -> threadId st' = Some thread).
Proof.
  intros I N A st'. subst st'. apply String.eqb_neq in I.
  unfold submitMessage. rewrite I. cbv zeta. unfold fetch.
  cbn [network input_set messages_update status_set]. rewrite N, A.
  unfold handleIncomingResponse. cbn [body].
  destruct (produced_parts thread message process ending) as (ps & -> & C).
  cbn [failure produced consume].
  match goal with |- context [handlePart ?o ?f ?p ?s0] =>
    destruct (control_data_backfills o f
                {| cd_threadId := thread; cd_messageId := message |} s0 (messages st)
                (user_message EmptyString (input st) requestData) eq_refl)
      as (s1 & -> & M1 & B1 & _)
  end.
  cbn [cd_messageId cd_threadId] in *.
  assert (nth_error (messages s1) (length (messages st))
          = Some (user_message message (input st) requestData)) as K
    by (rewrite M1; apply nth_error_snoc).
  split.
  - pose proof (consume_control_free_keeps onToolCall
                  (fun payload => submitToolOutput threadIdParam onToolCall JSON_stringify
                                    nanoid payload None)
                  ps ending s1 _ _
                  (submitToolOutput_evolving threadIdParam onToolCall JSON_stringify nanoid)
                  C K) as H.
    now destruct (consume _ _ _ _ _).
  - intros ->.
    pose proof (consume_unhandled_threadId
                  (fun payload => submitToolOutput threadIdParam None JSON_stringify
                                    nanoid payload None) ps ending s1 C) as H.
    rewrite B1 in H. now destruct (consume _ _ _ _ _).
Qed.

Lemma produced_response_is_bound_example :
  nth_error
    (messages (final (submitMessage None None sample_stringify sample_nanoid None
       (typing "hi"
          [fun _ => inr {| body := Some (produced "t1" "m1"
                                           (sends_then_rejects (new_Error "boom")) None) |}]))))
    0 = Some (user_message "m1" "hi" None)
  /\ (@None Handler = None ->
      threadId (final (submitMessage None None sample_stringify sample_nanoid None
         (typing "hi"
            [fun _ => inr {| body := Some (produced "t1" "m1"
                                             (sends_then_rejects (new_Error "boom")) None) |}])))
      = Some "t1").
Proof.
  apply (produced_response_is_bound None None sample_stringify sample_nanoid None
           (typing "hi"
              [fun _ => inr {| body := Some (produced "t1" "m1"
                                               (sends_then_rejects (new_Error "boom")) None) |}])
           (fun _ => inr {| body := Some (produced "t1" "m1"
                                            (sends_then_rejects (new_Error "boom")) None) |})
           [] "t1" "m1" (sends_then_rejects (new_Error "boom")) None).
  - discriminate.
  - reflexivity.
  - reflexivity.
Defined.

(** ** Nested tool round trips *)

(** The handling of a tool-calls part whose handler answers every
    call, down to the nested call of [submitToolOutput]. *)
Lemma handlePart_submits (threadIdParam : option string) (handler : Handler)
    (JSON_stringify : list ToolCallOutput -> string) (nanoid : nat -> string)
    (value : ToolCallMessage) (st : State) (outs : list ToolCallOutput) :
  Promise_all (map (invoke handler) (tcm_tool_calls value)) = inr outs ->
  handlePart (Some handler)
    (fun payload => submitToolOutput threadIdParam (Some handler) JSON_stringify nanoid
                      payload None)
    (tool_calls value) st
  = match submitToolOutput_body threadIdParam (Some handler) JSON_stringify nanoid
            (fun payload => submitToolOutput threadIdParam (Some handler) JSON_stringify
                              nanoid payload None)
            outs None (messages_update (push (tool_calls_message value)) st) with
    | Returns st2 => Returns st2
    | Throws err st2 => Returns (error_set err st2)
    end.
Proof.
  intros P. cbn [handlePart]. cbv zeta. rewrite P.
  now rewrite submitToolOutput_unfold.
Qed.

(** A nested tool round trip that returns leaves [status] at
    [awaiting_message] although the enclosing round trip is not over:
    the parts that follow the tool-calls part in the enclosing response
    are handled in a state that already reads idle. *)
Theorem nested_round_trip_reads_idle_early (threadIdParam : option string)
    (handler : Handler) (JSON_stringify : list ToolCallOutput -> string)
    (nanoid : nat -> string) (value : ToolCallMessage) (st : State)
    (outs : list ToolCallOutput) (answer : Request -> Fetched)
    (rest : list (Request -> Fetched)) (stream : DecodedStream)
    (later : list StreamPart) (ending : option JsVal) :
  Promise_all (map (invoke handler) (tcm_tool_calls value)) = inr outs ->
  network st = answer :: rest ->
  (forall req, answer req = inr {| body := Some stream |}) ->
  failure stream = None -> Forall readable (parts stream) ->
  let submit := fun payload =>
    submitToolOutput threadIdParam (Some handler) JSON_stringify nanoid payload None in
  exists st1,
    status st1 = awaiting_message /\
    consume (Some handler) submit (tool_calls value :: later) ending st
    = consume (Some handler) submit later ending st1.
Proof.
  intros P N A E F submit. subst submit. cbn [consume].
  rewrite (handlePart_submits threadIdParam handler JSON_stringify nanoid value st outs P).
  unfold submitToolOutput_body. cbv zeta. unfold fetch.
  cbn [network status_set messages_update]. rewrite N, A.
  match goal with |- context [handleIncomingResponse ?o ?f ?r ?s0] =>
    destruct (round_trip_with_body o f stream s0
                (submitToolOutput_evolving threadIdParam o JSON_stringify nanoid) E F
                (push_nonempty _ _)) as (st1 & R & S)
  end.
  rewrite R. now exists st1.
Qed.

Lemma nested_round_trip_reads_idle_early_example :
  exists st1,
    status st1 = awaiting_message /\
    consume (Some knows_all)
      (fun payload => submitToolOutput None (Some knows_all) sample_stringify sample_nanoid
                        payload None)
      [tool_calls calls_weather_and_time; says "a1" "one moment"] None
      (status_set in_progress (initial [streams [control "t1" "m2"; says "a2" "sunny"] None]))
    = consume (Some knows_all)
        (fun payload => submitToolOutput None (Some knows_all) sample_stringify sample_nanoid
                          payload None)
        [says "a1" "one moment"] None st1.
Proof.
  apply (nested_round_trip_reads_idle_early None knows_all sample_stringify sample_nanoid
           calls_weather_and_time
           (status_set in_progress
              (initial [streams [control "t1" "m2"; says "a2" "sunny"] None]))
           [ {| tool_call_id := "c1"; output := "weather" |};
             {| tool_call_id := "c2"; output := "time" |} ]
           (streams [control "t1" "m2"; says "a2" "sunny"] None) []
           {| parts := [control "t1" "m2"; says "a2" "sunny"]; failure := None |}
           [says "a1" "one moment"] None).
  - reflexivity.
  - reflexivity.
  - reflexivity.
  - reflexivity.
  - repeat constructor. now exists "sunny", [].
Defined.

(** Failures of a nested submission do not leave the enclosing loop:
    a rejected request, a response without body and a failing
    iteration of the nested response are each recorded in the error
    store by the handling of the tool-calls part, which returns.  In
    the first two cases [status] is left at [in_progress]. *)
Theorem nested_failures_are_recorded (threadIdParam : option string)
    (handler : Handler) (JSON_stringify : list ToolCallOutput -> string)
    (nanoid : nat -> string) (value : ToolCallMessage) (st : State)
    (outs : list ToolCallOutput) (answer : Request -> Fetched)
    (rest : list (Request -> Fetched)) :
  Promise_all (map (invoke handler) (tcm_tool_calls value)) = inr outs ->
  network st = answer :: rest ->
  let submit := fun payload =>
    submitToolOutput threadIdParam (Some handler) JSON_stringify nanoid payload None in
  let req := tool_request threadIdParam outs None st in
  (forall reason, answer req = inl reason ->
     exists st1,
       handlePart (Some handler) submit (tool_calls value) st = Returns st1 /\
       error st1 = reason /\ status st1 = in_progress)
  /\
  (answer req = inr {| body := None |} ->
     exists st1,
       handlePart (Some handler) submit (tool_calls value) st = Returns st1 /\
       error st1 = new_Error "The response body is empty." /\ status st1 = in_progress)
  /\
  (forall ps e,
     answer req = inr {| body := Some {| parts := ps; failure := Some e |} |} ->
     exists st1 message,
       handlePart (Some handler) submit (tool_calls value) st = Returns st1 /\
       error st1 = TypeError message).
Proof.
  intros P N submit req. subst submit req.
  rewrite (handlePart_submits threadIdParam handler JSON_stringify nanoid value st outs P).
  unfold submitToolOutput_body. cbv zeta. unfold fetch.
  cbn [network status_set messages_update]. rewrite N.
  change {| rq_threadId := _; rq_message := None; rq_content := Some outs;
            rq_data := None; rq_role := Some tool |}
    with (tool_request threadIdParam outs None st).
  split; [|split].
  - intros reason ->. eexists. split; [reflexivity|]. split; reflexivity.
  - intros ->. unfold handleIncomingResponse. cbn [body].
    eexists. split; [reflexivity|]. split; reflexivity.
  - intros ps e ->. unfold handleIncomingResponse. cbn [body parts failure].
    match goal with |- context [consume ?o ?f ps (Some e) ?s0] =>
      destruct (consume_failing_stream o f ps e s0) as (caught & s1 & ->)
    end.
    destruct (call_set_on_TypeError caught) as (message & ->).
    eexists. exists message. split; reflexivity.
Qed.

Lemma nested_failures_are_recorded_example :
  exists st1,
    handlePart (Some knows_all)
      (fun payload => submitToolOutput None (Some knows_all) sample_stringify sample_nanoid
                        payload None)
      (tool_calls calls_weather_and_time) (initial [bodiless]) = Returns st1 /\
    error st1 = new_Error "The response body is empty." /\ status st1 = in_progress.
Proof.
  exact (proj1 (proj2 (nested_failures_are_recorded None knows_all sample_stringify
                         sample_nanoid calls_weather_and_time (initial [bodiless])
                         [ {| tool_call_id := "c1"; output := "weather" |};
                           {| tool_call_id := "c2"; output := "time" |} ]
                         bodiless [] eq_refl eq_refl)) eq_refl).
Defined.

(** ** The end of a producer session *)

(** Every session closes its stream exactly once.  When the callback
    fulfils, the stream holds the control data and what the callback
    sent, and nothing else; when the callback fails with an [Error]
    object or with a string, one error part follows, carrying the
    object's [message] or the string.  In these cases the promise of
    [start] is fulfilled: the failure does not escape. *)
Theorem session_ends_cleanly (thread message : string)
    (process : AssistantResponseCallback) :
  let r := experimental_AssistantResponse thread message process in
  let first := assistant_control_data {| cd_threadId := thread; cd_messageId := message |} in
  let sends := map part_of (sent (process thread message)) in
  closeCalls (stream r) = 1
  /\
  (rejection (process thread message) = None ->
     chunks (stream r) = first :: sends /\ start_rejection r = None)
  /\
  (forall n text, rejection (process thread message) = Some (JError n text) ->
     chunks (stream r) = first :: sends ++ [error_part text] /\ start_rejection r = None)
  /\
  (forall s, rejection (process thread message) = Some (JString s) ->
     chunks (stream r) = first :: sends ++ [error_part s] /\ start_rejection r = None).
Proof.
  intros r first sends. subst r first sends. split; [|split; [|split]].
  - unfold experimental_AssistantResponse.
    destruct (rejection (process thread message)) as [err|]; simpl.
    + destruct (failure_text err); simpl; now rewrite perform_all_closeCalls.
    + now rewrite perform_all_closeCalls.
  - intros E. rewrite session_chunks. unfold experimental_AssistantResponse.
    rewrite E. now rewrite app_nil_r.
  - intros n text E. rewrite session_chunks. unfold experimental_AssistantResponse.
    now rewrite E.
  - intros s E. rewrite session_chunks. unfold experimental_AssistantResponse.
    now rewrite E.
Qed.

Lemma session_ends_cleanly_example :
  chunks (stream (experimental_AssistantResponse "t1" "m1" (sends_then_rejects (JString "boom"))))
  = control "t1" "m1"
    :: map part_of (sent (sends_then_rejects (JString "boom") "t1" "m1"))
    ++ [error_part "boom"]
  /\ start_rejection (experimental_AssistantResponse "t1" "m1"
                        (sends_then_rejects (JString "boom"))) = None.
Proof.
  exact (proj2 (proj2 (proj2 (session_ends_cleanly "t1" "m1"
                                (sends_then_rejects (JString "boom"))))) "boom" eq_refl).
Defined.

(** ** The two hooks *)

Lemma tool_free_not_tool_calls (part : StreamPart) :
  tool_free part -> forall value, part <> tool_calls value.
Proof. intros T value ->. exact T. Qed.

Lemma same_stores_refl (st : State) : same_stores st st.
Proof. now repeat split. Qed.

Lemma handlePart_tool_free_same o1 s1 o2 s2 (part : StreamPart) (a b : State) :
  tool_free part -> same_stores a b ->
  same_outcome (handlePart o1 s1 part a) (handlePart o2 s2 part b).
Proof.
  intros T (M & I & B & S & E).
  destruct a as [ma ia ta sa ea na qa ka], b as [mb ib tb sb eb nb qb kb].
  cbn in M, I, B, S, E. subst mb ib tb sb eb.
  destruct part as [value | value | value | value | value];
    cbn [handlePart]; try contradiction.
  - destruct (am_content value) as [|block r]; [now repeat split|].
    destruct (text block); now repeat split.
  - now repeat split.
  - cbv zeta. cbn [messages threadId_set]. destruct (lastMessage ma); now repeat split.
  - now repeat split.
Qed.

Lemma consume_tool_free_same o1 s1 o2 s2 (ps : list StreamPart) ending (a b : State) :
  Forall tool_free ps -> same_stores a b ->
  same_outcome (consume o1 s1 ps ending a) (consume o2 s2 ps ending b).
Proof.
  intros T. revert a b. induction T as [|part rest Tp T IH]; intros a b H; simpl.
  - destruct ending; [split; [reflexivity | exact H] | exact H].
  - pose proof (handlePart_tool_free_same o1 s1 o2 s2 part a b Tp H) as K.
    destruct (handlePart o1 s1 part a) as [a1 | ea a1],
             (handlePart o2 s2 part b) as [b1 | eb b1]; simpl in K; try contradiction.
    + now apply IH.
    + exact K.
Qed.

(** On a response without tool-calls part, the earlier [submitMessage]
    and the current one (called without request data) do the same to
    the five stores and end the same way, whatever the handler
    configured: the current hook extends the earlier one.  They differ
    in the request alone, which carries a role in the current hook. *)
Theorem hooks_agree_without_tool_calls (threadIdParam : option string)
    (onToolCall : option Handler) (JSON_stringify : list ToolCallOutput -> string)
    (nanoid : nat -> string) (st : State)
    (answer : Request -> Fetched) (rest : list (Request -> Fetched)) :
  network st = answer :: rest ->
  answer (legacy_user_request threadIdParam None st)
    = answer (user_request threadIdParam None st) ->
  (forall stream,
     answer (user_request threadIdParam None st) = inr {| body := Some stream |} ->
     Forall tool_free (parts stream)) ->
  same_outcome (Legacy.submitMessage threadIdParam None st)
               (submitMessage threadIdParam onToolCall JSON_stringify nanoid None st).
Proof.
  intros N A T. unfold Legacy.submitMessage, submitMessage.
  destruct (String.eqb (input st) EmptyString); [apply same_stores_refl|].
  cbv zeta. unfold fetch. cbn [network input_set messages_update status_set].
  rewrite N.
  change {| rq_threadId := _; rq_message := Some (input st); rq_content := None;
            rq_data := None; rq_role := None |}
    with (legacy_user_request threadIdParam None st).
  change {| rq_threadId := _; rq_message := Some (input st); rq_content := None;
            rq_data := None; rq_role := Some user |}
    with (user_request threadIdParam None st).
  rewrite A.
  destruct (answer (user_request threadIdParam None st)) as [reason | [[stream|]]] eqn:F.
  - cbn. now repeat split.
  - specialize (T stream eq_refl).
    unfold handleIncomingResponse. cbn [body].
    match goal with
    | |- same_outcome
           match Legacy.consume ?ps ?e ?sa with _ => _ end
           match match consume ?o ?f ?ps ?e ?sb with _ => _ end with _ => _ end =>
        assert (same_outcome (Legacy.consume ps e sa) (consume o f ps e sb)) as K
          by (rewrite (Legacy_consume_agrees None (fun _ s => Returns s) ps e sa)
                by (eapply Forall_impl; [|exact T]; apply tool_free_not_tool_calls);
              apply consume_tool_free_same; [exact T | now repeat split]);
        destruct (Legacy.consume ps e sa) as [a1 | ea a1],
                 (consume o f ps e sb) as [b1 | eb b1]
    end; cbn in K; try contradiction.
    + destruct K as (M & I & B & S & E). now repeat split.
    + destruct K as (-> & M & I & B & S & E). now repeat split.
  - unfold handleIncomingResponse. cbn. now repeat split.
Qed.

Lemma hooks_agree_without_tool_calls_example :
  same_outcome
    (Legacy.submitMessage None None
       (typing "hi" [streams [control "t1" "m1"; says "a1" "hello"; error_part "late"] None]))
    (submitMessage None (Some knows_all) sample_stringify sample_nanoid None
       (typing "hi" [streams [control "t1" "m1"; says "a1" "hello"; error_part "late"] None])).
Proof.
  apply (hooks_agree_without_tool_calls None (Some knows_all) sample_stringify sample_nanoid
           (typing "hi" [streams [control "t1" "m1"; says "a1" "hello"; error_part "late"] None])
           (streams [control "t1" "m1"; says "a1" "hello"; error_part "late"] None) []).
  - reflexivity.
  - reflexivity.
  - intros stream [= <-]. repeat constructor.
Defined.

(** The status after the earlier [submitMessage], at a sample run. *)
Lemma Legacy_status_after_round_trip_example :
  exists st',
    Legacy.submitMessage None None
      (typing "hi" [streams [control "t1" "m1"; error_part "overloaded";
                             tool_calls calls_weather_and_time] None])
    = Returns st' /\
    status st' = awaiting_message.
Proof.
  refine (proj1 (Legacy_status_after_round_trip None None
                   (typing "hi" [streams [control "t1" "m1"; error_part "overloaded";
                                          tool_calls calls_weather_and_time] None])
                   (streams [control "t1" "m1"; error_part "overloaded";
                             tool_calls calls_weather_and_time] None) [] eq_refl _)
            {| parts := [control "t1" "m1"; error_part "overloaded";
                         tool_calls calls_weather_and_time];
               failure := None |} (fun _ => eq_refl) eq_refl _).
  - discriminate.
  - repeat constructor.
Defined.

Lemma Legacy_consume_stores (ps : list StreamPart) ending (st : State) :
  status (final (Legacy.consume ps ending st)) = status st /\
  requests (final (Legacy.consume ps ending st)) = requests st.
Proof.
  revert st. induction ps as [|part rest IH]; intros st; simpl.
  - now destruct ending.
  - assert (status (final (Legacy.handlePart part st)) = status st /\
            requests (final (Legacy.handlePart part st)) = requests st) as [S Q].
    { destruct part as [value | value | value | value | value];
        cbn [Legacy.handlePart]; try (split; reflexivity).
      - destruct (am_content value) as [|block r]; [split; reflexivity|].
        destruct (text block); split; reflexivity.
      - cbv zeta. destruct (lastMessage _); split; reflexivity. }
    destruct (Legacy.handlePart part st) as [st1 | e st1]; simpl in *.
    + destruct (IH st1) as [S1 Q1]. split; congruence.
    + now split.
Qed.

Lemma Legacy_consume_failing_stream (ps : list StreamPart) (e : JsVal) (st : State) :
  exists caught st', Legacy.consume ps (Some e) st = Throws caught st'.
Proof.
  revert st. induction ps as [|part rest IH]; intros st; simpl.
  - now exists e, st.
  - destruct (Legacy.handlePart part st) as [st1 | caught st1].
    + apply IH.
    + now exists caught, st1.
Qed.

(** The earlier [submitMessage] on a response whose iteration fails:
    the call throws a [TypeError] to its caller (the [catch] clause
    calls [set] on the caught value), [status] is left at
    [in_progress], and only the request of the call was issued. *)
Theorem Legacy_iteration_failure_reaches_caller (threadIdParam : option string)
    (requestData : option Json) (st : State)
    (answer : Request -> Fetched) (rest : list (Request -> Fetched))
    (ps : list StreamPart) (e : JsVal) :
  input st <> EmptyString ->
  network st = answer :: rest ->
  (forall req, answer req = inr {| body := Some {| parts := ps; failure := Some e |} |}) ->
  exists message st',
    Legacy.submitMessage threadIdParam requestData st = Throws (TypeError message) st' /\
    status st' = in_progress /\
    requests st' = requests st ++ [legacy_user_request threadIdParam requestData st].
Proof.
  intros I N A. apply String.eqb_neq in I.
  unfold Legacy.submitMessage. rewrite I. cbv zeta. unfold fetch.
  cbn [network input_set messages_update status_set]. rewrite N, A. cbn [body parts failure].
  match goal with |- context [Legacy.consume ps (Some e) ?s0] =>
    destruct (Legacy_consume_failing_stream ps e s0) as (caught & s1 & C);
    destruct (Legacy_consume_stores ps (Some e) s0) as [S Q];
    rewrite C in *
  end.
  destruct (call_set_on_TypeError caught) as (message & ->).
  exists message, s1. split; [reflexivity|]. split; [exact S | exact Q].
Qed.

Lemma Legacy_iteration_failure_reaches_caller_example :
  exists message st',
    Legacy.submitMessage None None
      (typing "hi" [streams [control "t1" "m1"] (Some (new_Error "Failed to parse stream string."))])
    = Throws (TypeError message) st' /\
    status st' = in_progress /\
    requests st' = [] ++ [legacy_user_request None None
                            (typing "hi" [streams [control "t1" "m1"]
                               (Some (new_Error "Failed to parse stream string."))])].
Proof.
  apply (Legacy_iteration_failure_reaches_caller None None
           (typing "hi" [streams [control "t1" "m1"]
                           (Some (new_Error "Failed to parse stream string."))])
           (streams [control "t1" "m1"] (Some (new_Error "Failed to parse stream string.")))
           [] [control "t1" "m1"] (new_Error "Failed to parse stream string.")).
  - discriminate.
  - reflexivity.
  - reflexivity.
Defined.

(** ** A whole tool round trip *)

(** The handling of a tool-calls part when the handler answers every
    call and the nested response is a plain one: the history grows by
    the transparency message, the tool message with the serialized
    outputs, whose generated [id] is replaced by the message
    identifier the nested response announces, and one message per
    assistant and data part of the nested response; the hook is bound
    to the thread the nested response announces, one request was
    issued and one identifier generated, and [status] reads idle. *)
Theorem tool_round_trip (threadIdParam : option string) (handler : Handler)
    (JSON_stringify : list ToolCallOutput -> string) (nanoid : nat -> string)
    (value : ToolCallMessage) (st : State) (outs : list ToolCallOutput)
    (answer : Request -> Fetched) (rest : list (Request -> Fetched))
    (announced : ControlData) (ps : list StreamPart) :
  Promise_all (map (invoke handler) (tcm_tool_calls value)) = inr outs ->
  network st = answer :: rest ->
  answer (tool_request threadIdParam outs None st)
    = inr {| body := Some {| parts := assistant_control_data announced :: ps;
                             failure := None |} |} ->
  Forall tool_free ps -> Forall control_free ps -> Forall readable ps ->
  exists st',
    handlePart (Some handler)
      (fun payload => submitToolOutput threadIdParam (Some handler) JSON_stringify nanoid
                        payload None)
      (tool_calls value) st = Returns st' /\
    messages st' = messages st
                   ++ tool_calls_message value
                   :: tool_output_message (cd_messageId announced) (JSON_stringify outs) None
                   :: flat_map appended ps /\
    threadId st' = Some (cd_threadId announced) /\
    status st' = awaiting_message /\
    error st' = last_error ps (error st) /\
    requests st' = requests st ++ [tool_request threadIdParam outs None st] /\
    network st' = rest /\
    nanoids st' = S (nanoids st) /\
    input st' = input st.
Proof.
  intros P N A T C R.
  rewrite (handlePart_submits threadIdParam handler JSON_stringify nanoid value st outs P).
  unfold submitToolOutput_body. cbv zeta. unfold fetch.
  cbn [network status_set messages_update]. rewrite N.
  change {| rq_threadId := _; rq_message := None; rq_content := Some outs;
            rq_data := None; rq_role := Some tool |}
    with (tool_request threadIdParam outs None st).
  rewrite A. unfold handleIncomingResponse. cbn [body parts failure consume].
  match goal with |- context [handlePart ?o ?f ?p ?s0] =>
    destruct (control_data_backfills o f announced s0
                (messages st ++ [tool_calls_message value])
                (tool_output_message (nanoid (nanoids st)) (JSON_stringify outs) None)
                eq_refl)
      as (s1 & -> & M1 & B1 & I1 & S1 & E1 & Q1 & N1 & G1)
  end.
  cbn [input status error requests network messages threadId nanoids
       input_set messages_update status_set] in *.
  destruct (consume_plain (Some handler)
              (fun payload => submitToolOutput threadIdParam (Some handler) JSON_stringify
                                nanoid payload None) ps s1 T C R) as (st5 & E & M & B).
  pose proof (consume_tool_free (Some handler)
                (fun payload => submitToolOutput threadIdParam (Some handler) JSON_stringify
                                  nanoid payload None) ps None s1 T) as Q.
  pose proof (consume_last_error (Some handler)
                (fun payload => submitToolOutput threadIdParam (Some handler) JSON_stringify
                                  nanoid payload None) ps None s1 st5 T E) as L.
  rewrite E in *. cbn [final] in Q. destruct Q as (Q2 & N2 & S2 & I2 & G2).
  eexists. split; [reflexivity|].
  cbn [messages threadId status input error requests network nanoids status_set].
  repeat split; try congruence.
  rewrite M, M1, <- !app_assoc. reflexivity.
Qed.

Lemma tool_round_trip_example :
  exists st',
    handlePart (Some knows_all)
      (fun payload => submitToolOutput None (Some knows_all) sample_stringify sample_nanoid
                        payload None)
      (tool_calls calls_weather_and_time)
      (messages_update (push (user_message "m1" "hi" None))
         (initial [streams [control "t1" "m2"; says "a2" "sunny"] None])) = Returns st' /\
    messages st' = [user_message "m1" "hi" None]
                   ++ tool_calls_message calls_weather_and_time
                   :: tool_output_message "m2" "c1=weather;c2=time" None
                   :: flat_map appended [says "a2" "sunny"] /\
    threadId st' = Some "t1" /\
    status st' = awaiting_message /\
    error st' = last_error [says "a2" "sunny"] JUndefined /\
    requests st' = [] ++ [ {| rq_threadId := None; rq_message := None;
                              rq_content := Some [ {| tool_call_id := "c1"; output := "weather" |};
                                                   {| tool_call_id := "c2"; output := "time" |} ];
                              rq_data := None; rq_role := Some tool |} ] /\
    network st' = [] /\
    nanoids st' = 1 /\
    input st' = EmptyString.
Proof.
  apply (tool_round_trip None knows_all sample_stringify sample_nanoid
           calls_weather_and_time
           (messages_update (push (user_message "m1" "hi" None))
              (initial [streams [control "t1" "m2"; says "a2" "sunny"] None]))
           [ {| tool_call_id := "c1"; output := "weather" |};
             {| tool_call_id := "c2"; output := "time" |} ]
           (streams [control "t1" "m2"; says "a2" "sunny"] None) []
           {| cd_threadId := "t1"; cd_messageId := "m2" |} [says "a2" "sunny"]).
  - reflexivity.
  - reflexivity.
  - reflexivity.
  - repeat constructor.
  - repeat constructor.
  - repeat constructor. now exists "sunny", [].
Defined.

(** A tool-calls part that requests no call: without a handler the
    recorded text ends after the fixed prefix; with a handler, no
    handler invocation takes place but [submitToolOutput] is still
    called, with an empty payload, and its request is issued. *)
Theorem empty_tool_calls (threadIdParam : option string) (onToolCall : option Handler)
    (JSON_stringify : list ToolCallOutput -> string) (nanoid : nat -> string)
    (value : ToolCallMessage) (st : State) :
  tcm_tool_calls value = [] ->
  let st' := final (handlePart onToolCall
                      (fun payload => submitToolOutput threadIdParam onToolCall
                                        JSON_stringify nanoid payload None)
                      (tool_calls value) st) in
  match onToolCall with
  | None => error st' = JString unhandled_prefix /\ requests st' = requests st
  | Some _ =>
      exists later,
        requests st' = requests st ++ tool_request threadIdParam [] None st :: later
  end.
Proof.
  intros E st'. subst st'. cbn [handlePart]. cbv zeta. rewrite E.
  destruct onToolCall as [handler|].
  - cbn [map Promise_all].
    match goal with |- context [submitToolOutput ?t ?o ?j ?n [] None ?s0] =>
      destruct (submitToolOutput_requests t o j n [] None s0) as (later & Q);
      exists later; destruct (submitToolOutput t o j n [] None s0)
    end; exact Q.
  - cbn [map String.concat final error error_set requests messages_update].
    now rewrite string_append_nil_r.
Qed.

Lemma empty_tool_calls_example :
  exists later,
    requests (final (handlePart (Some weather_only)
                       (fun payload => submitToolOutput None (Some weather_only)
                                         sample_stringify sample_nanoid payload None)
                       (tool_calls {| tcm_tool_calls := [] |})
                       (initial [streams [] None])))
    = [] ++ tool_request None [] None (initial [streams [] None]) :: later.
Proof.
  exact (empty_tool_calls None (Some weather_only) sample_stringify sample_nanoid
           {| tcm_tool_calls := [] |} (initial [streams [] None]) eq_refl).
Defined.
